(** * Student Expense Manager: the store and its reports

    A shallow embedding of [expense_manager.py].  The program keeps two
    SQLite tables,

      expenses(id INTEGER PRIMARY KEY AUTOINCREMENT, date TEXT NOT NULL,
               category TEXT NOT NULL, amount REAL NOT NULL, note TEXT)
      budget(month TEXT PRIMARY KEY, amount REAL NOT NULL)

    and every feature of the menu is one SQL statement wrapped in a little
    Python.  The embedding therefore has two layers:

    - [Sqlite]: the part of the SQLite engine the statements rely on, above
      all the date parser behind [strftime('%Y-%m', date)];
    - the Python functions of the program, under their own names.

    Conventions.  TEXT values and Python strings are byte strings (the UTF-8
    encoding SQLite stores) without the zero byte.  REAL amounts are finite
    numbers, modelled by rationals [Q]; the values [nan] and [inf] that
    [input_float] would let through have no counterpart.  The engine and
    Python compute with binary64, where an addition rounds, so that a SUM
    need not be the arithmetic sum of its terms (0.1 + 0.7 is not 0.8).
    The theorems about totals therefore say which rows are summed and in
    which order, and what sign a total has; none of them says that a total
    is an arithmetic sum.  (The lemmas that relate a SUM to the arithmetic
    sum [total] hold of the rationals, and serve to bound totals.)
    INTEGER values are [Z], with the signed 64-bit range checked wherever
    the engine or the Python binding checks it.  A function that prints is
    modelled by the values it prints. *)

From Stdlib Require Import ZArith QArith Qround List String Ascii Bool Lia.
From Stdlib Require Import Permutation Sorted Lqa.
Import ListNotations.

Local Open Scope string_scope.
Local Open Scope Z_scope.

(* ================================================================== *)
(** * The SQLite engine, as far as the program uses it *)
(* ================================================================== *)

Module Sqlite.

(** Releases of the engine differ in three details of the date functions.
    The program does not pin a release, so the model carries them as flags
    and every result below holds for each choice.

    - [normalize_ymd]: a parsed day of month above 28 is renormalised through
      the Julian day number ([2023-02-31] becomes [2023-03-03]); older
      releases keep the fields as written.
    - [subsec_now]: the time values [subsec] and [subsecond] denote the
      current time; older releases reject them.
    - [ymd_alpha]: the Julian-day-to-calendar conversion uses the corrected
      century term; older releases truncate it towards zero. *)
Record engine : Type := mkEngine {
  normalize_ymd : bool;
  subsec_now : bool;
  ymd_alpha : bool
}.

Definition legacy_engine : engine := mkEngine false false false.
Definition current_engine : engine := mkEngine true true true.

(** ** Characters *)

Definition code (c : ascii) : Z := Z.of_N (N_of_ascii c).

(** [sqlite3Isdigit] *)
Definition isdigit (c : ascii) : bool := (48 <=? code c) && (code c <=? 57).

(** [sqlite3Isspace]: space, \t, \n, \v, \f, \r *)
Definition isspace (c : ascii) : bool :=
  (code c =? 32) || ((9 <=? code c) && (code c <=? 13)).

Definition digit_val (c : ascii) : Z := code c - 48.

Fixpoint skip_space (z : string) : string :=
  match z with
  | String c z' => if isspace c then skip_space z' else z
  | EmptyString => z
  end.

(** ASCII case folding, as [sqlite3StrICmp] does it. *)
Definition tolower (c : ascii) : ascii :=
  if (65 <=? code c) && (code c <=? 90)
  then ascii_of_N (N_of_ascii c + 32) else c.

Fixpoint stricmp_eq (a b : string) : bool :=
  match a, b with
  | EmptyString, EmptyString => true
  | String x a', String y b' => Ascii.eqb (tolower x) (tolower y) && stricmp_eq a' b'
  | _, _ => false
  end.

(** ** [getDigits]

    One field of the format string: exactly [n] decimal digits whose value
    lies in [lo..hi].  Returns the value and the rest of the input. *)
Fixpoint digits (n : nat) (acc : Z) (z : string) : option (Z * string) :=
  match n with
  | O => Some (acc, z)
  | S n' =>
      match z with
      | String c z' =>
          if isdigit c then digits n' (acc * 10 + digit_val c) z' else None
      | EmptyString => None
      end
  end.

Definition field (n : nat) (lo hi : Z) (z : string) : option (Z * string) :=
  match digits n 0 z with
  | Some (v, z') => if (lo <=? v) && (v <=? hi) then Some (v, z') else None
  | None => None
  end.

(** A separator character of the format string. *)
Definition sep (c : ascii) (z : string) : option string :=
  match z with
  | String c' z' => if Ascii.eqb c c' then Some z' else None
  | EmptyString => None
  end.

(** ** Time of day with an optional zone *)

Record HMS : Type := mkHMS {
  h : Z;          (* 0..24 *)
  m : Z;          (* 0..59 *)
  s : Q;          (* seconds with fraction *)
  tz : Z          (* zone offset in minutes, 0 when absent or Z *)
}.

(** [parseTimezone]: [(+|-)HH:MM] or [Z], surrounded by optional white
    space, up to the end of the string.  Returns the offset in minutes. *)
Definition parseTimezone (z : string) : option Z :=
  let z := skip_space z in
  match z with
  | EmptyString => Some 0
  | String c z1 =>
      if Ascii.eqb c "Z" || Ascii.eqb c "z" then
        match skip_space z1 with EmptyString => Some 0 | _ => None end
      else if Ascii.eqb c "-" || Ascii.eqb c "+" then
        let sgn := if Ascii.eqb c "-" then -1 else 1 in
        match field 2 0 14 z1 with
        | Some (nHr, z2) =>
            match sep ":" z2 with
            | Some z3 =>
                match field 2 0 59 z3 with
                | Some (nMn, z4) =>
                    match skip_space z4 with
                    | EmptyString => Some (sgn * (nMn + nHr * 60))
                    | _ => None
                    end
                | None => None
                end
            | None => None
            end
        | None => None
        end
      else None
  end.

(** The digits after the decimal point of the seconds: [ms /= rScale]. *)
Fixpoint fraction (ms : Z) (rScale : positive) (z : string) : Q * string :=
  match z with
  | String c z' =>
      if isdigit c then fraction (ms * 10 + digit_val c) (rScale * 10) z'
      else (ms # rScale, z)
  | EmptyString => (ms # rScale, z)
  end.

(** [parseHhMmSs]: [HH:MM], [HH:MM:SS] or [HH:MM:SS.FFFF], then the zone. *)
Definition parseHhMmSs (z : string) : option HMS :=
  match field 2 0 24 z with
  | None => None
  | Some (hh, z1) =>
  match sep ":" z1 with
  | None => None
  | Some z2 =>
  match field 2 0 59 z2 with
  | None => None
  | Some (mm, z3) =>
      match z3 with
      | String ":" z4 =>
          match field 2 0 59 z4 with
          | None => None
          | Some (ss, z5) =>
              let '(frac, z6) :=
                match z5 with
                | String "." (String d _ as z') =>
                    if isdigit d then fraction 0 1 z' else (0%Q, z5)
                | _ => (0%Q, z5)
                end in
              match parseTimezone z6 with
              | Some t => Some (mkHMS hh mm (inject_Z ss + frac) t)
              | None => None
              end
          end
      | _ =>
          match parseTimezone z3 with
          | Some t => Some (mkHMS hh mm 0 t)
          | None => None
          end
      end
  end end end.

(** ** Calendar dates *)

Record YMD : Type := mkYMD { Y : Z; M : Z; D : Z }.

(** Skips white space and the letter T between the date and the time. *)
Fixpoint skip_space_T (z : string) : string :=
  match z with
  | String c z' => if isspace c || Ascii.eqb c "T" then skip_space_T z' else z
  | EmptyString => z
  end.

(** [parseYyyyMmDd]: [YYYY-MM-DD], optionally signed, optionally followed
    by a time.  Month 01..12 and day 01..31 are all that is checked. *)
Definition parseYyyyMmDd (z : string) : option (YMD * option HMS) :=
  let '(neg, z0) :=
    match z with
    | String "-" z' => (true, z')
    | _ => (false, z)
    end in
  match field 4 0 9999 z0 with
  | None => None
  | Some (yy, z1) =>
  match sep "-" z1 with
  | None => None
  | Some z2 =>
  match field 2 1 12 z2 with
  | None => None
  | Some (mo, z3) =>
  match sep "-" z3 with
  | None => None
  | Some z4 =>
  match field 2 1 31 z4 with
  | None => None
  | Some (dd, z5) =>
      let z6 := skip_space_T z5 in
      let date := mkYMD (if neg then - yy else yy) mo dd in
      match parseHhMmSs z6 with
      | Some t => Some (date, Some t)
      | None =>
          match z6 with
          | EmptyString => Some (date, None)
          | _ => None
          end
      end
  end end end end end.

(** ** Numbers: [sqlite3AtoF]

    The whole string must be a decimal literal: optional white space, an
    optional sign, digits with an optional point, an optional exponent,
    optional white space.  At least one digit is required in the
    significand, and an exponent marker requires exponent digits.  The
    engine produces a binary64; the model keeps the exact decimal value. *)

Fixpoint int_part (acc : Z) (n : nat) (z : string) : Z * nat * string :=
  match z with
  | String c z' =>
      if isdigit c then int_part (acc * 10 + digit_val c) (S n) z'
      else (acc, n, z)
  | EmptyString => (acc, n, z)
  end.

(** Fraction digits extend the significand and lower the exponent [d]. *)
Fixpoint frac_part (acc : Z) (d : Z) (n : nat) (z : string)
  : Z * Z * nat * string :=
  match z with
  | String c z' =>
      if isdigit c then frac_part (acc * 10 + digit_val c) (d - 1) (S n) z'
      else (acc, d, n, z)
  | EmptyString => (acc, d, n, z)
  end.

(** Exponent digits saturate at 10000. *)
Fixpoint exp_part (e : Z) (n : nat) (z : string) : Z * nat * string :=
  match z with
  | String c z' =>
      if isdigit c
      then exp_part (if e <? 10000 then e * 10 + digit_val c else 10000) (S n) z'
      else (e, n, z)
  | EmptyString => (e, n, z)
  end.

Definition pow10 (e : Z) : Q :=
  if 0 <=? e then inject_Z (10 ^ e) else / inject_Z (10 ^ (- e)).

Definition AtoF (z : string) : option Q :=
  let z := skip_space z in
  match z with
  | EmptyString => None
  | _ =>
  let '(sign, z) :=
    match z with
    | String "-" z' => (-1, z')
    | String "+" z' => (1, z')
    | _ => (1, z)
    end in
  let '(sig, nDigit, z) := int_part 0 0 z in
  let '(sig, d, nDigit, z) :=
    match z with
    | String "." z' => frac_part sig 0 nDigit z'
    | _ => (sig, 0, nDigit, z)
    end in
  let '(e, eValid, z) :=
    match z with
    | String c z' =>
        if Ascii.eqb c "e" || Ascii.eqb c "E" then
          let '(esign, z'') :=
            match z' with
            | String "-" y => (-1, y)
            | String "+" y => (1, y)
            | _ => (1, z')
            end in
          let '(e, n, z3) := exp_part 0 0 z'' in
          (esign * e, negb (Nat.eqb n 0), skip_space z3)
        else (0, true, skip_space z)
    | EmptyString => (0, true, z)
    end in
  match z with
  | EmptyString =>
      if negb (Nat.eqb nDigit 0) && eValid
      then Some (inject_Z (sign * sig) * pow10 (d + e))%Q
      else None
  | _ => None
  end
  end.

(** ** Time values

    What [parseDateOrTime] recognises, in the order it tries: a date with an
    optional time, a time alone, the word [now], a Julian day number. *)
Inductive timevalue : Type :=
| TDate (d : YMD) (t : option HMS)
| TTime (t : HMS)
| TNow
| TNumber (r : Q).

Definition parseDateOrTime (e : engine) (z : string) : option timevalue :=
  match parseYyyyMmDd z with
  | Some (d, t) => Some (TDate d t)
  | None =>
  match parseHhMmSs z with
  | Some t => Some (TTime t)
  | None =>
      if stricmp_eq z "now" then Some TNow
      else
        match AtoF z with
        | Some r => Some (TNumber r)
        | None =>
            if subsec_now e && (stricmp_eq z "subsec" || stricmp_eq z "subsecond")
            then Some TNow
            else None
        end
  end end.

(** ** Julian day numbers

    [iJD] counts milliseconds since noon of 24 November 4714 BC.  Integer
    division is C's, truncating towards zero ([Z.quot]).  The constants with
    a fractional part are scaled to integers: the engine evaluates them in
    binary64 and truncates, which gives the same integer because no quotient
    below comes closer to an integer than its denominator allows. *)

(** [computeJD] for a calendar date at midnight.  [day_of_ymd] is the sum
    [X1 + X2 + D + B] and the result is [(X1 + X2 + D + B - 1524.5) * 86400000]. *)
Definition day_of_ymd (d : YMD) : Z :=
  let '(y, mo) := if M d <=? 2 then (Y d - 1, M d + 12) else (Y d, M d) in
  let A := y ÷ 100 in
  let B := 2 - A + (A ÷ 4) in
  let X1 := (36525 * (y + 4716)) ÷ 100 in
  let X2 := (306001 * (mo + 1)) ÷ 10000 in
  X1 + X2 + D d + B.

Definition jd_of_ymd (d : YMD) : Z :=
  (2 * day_of_ymd d - 3049) * 43200000.

(** Milliseconds of a time of day: [h*3600000 + m*60000 + (i64)(s*1000+0.5)]. *)
Definition ms_of_hms (t : HMS) : Z :=
  h t * 3600000 + m t * 60000 + Qfloor (s t * 1000 + (1 # 2)).

Definition validJulianDay (iJD : Z) : bool :=
  (0 <=? iJD) && (iJD <=? 464269060799999).

(** [computeYMD]: the calendar date of a Julian day number.  [Z0] is the
    day that contains the instant, counted from noon. *)
Definition ymd_of_day (e : engine) (Z0 : Z) : YMD :=
  let A :=
    if ymd_alpha e then
      let alpha := ((4 * Z0 + 128179) ÷ 146097) - 52 in
      Z0 + 1 + alpha - ((alpha + 100) ÷ 4) + 25
    else
      let A0 := (4 * Z0 - 7468865) ÷ 146097 in
      Z0 + 1 + A0 - (A0 ÷ 4) in
  let B := A + 1524 in
  let C := (20 * B - 2442) ÷ 7305 in
  let D0 := (36525 * Z.land C 32767) ÷ 100 in
  let E := ((B - D0) * 10000) ÷ 306001 in
  let X1 := (306001 * E) ÷ 10000 in
  let mo := if E <? 14 then E - 1 else E - 13 in
  mkYMD (if 2 <? mo then C - 4716 else C - 4715) mo (B - D0 - X1).

Definition ymd_of_jd (e : engine) (iJD : Z) : YMD :=
  ymd_of_day e ((iJD + 43200000) ÷ 86400000).

(** The part of the engine's [DateTime] that [strftime('%Y-%m', _)] reads:
    the Julian day number, and the calendar fields while they are still
    valid ([validYMD]). *)
Record DateTime : Type := mkDateTime {
  iJD : Z;
  ymd : option YMD
}.

(** [computeJD] on a parsed time value; [None] is [datetimeError]. *)
Definition computeJD (now : Z) (v : timevalue) : option DateTime :=
  match v with
  | TDate d t =>
      if (Y d <? -4713) || (9999 <? Y d) then None
      else
        match t with
        | None => Some (mkDateTime (jd_of_ymd d) (Some d))
        | Some t =>
            let jd := jd_of_ymd d + ms_of_hms t in
            if tz t =? 0 then Some (mkDateTime jd (Some d))
            else Some (mkDateTime (jd - tz t * 60000) None)
        end
  | TTime t =>
      (* no date given: 2000-01-01 *)
      Some (mkDateTime (jd_of_ymd (mkYMD 2000 1 1) + ms_of_hms t - tz t * 60000)
                       None)
  | TNow => if 0 <? now then Some (mkDateTime now None) else None
  | TNumber r =>
      (* setRawDateNumber *)
      if Qle_bool 0 r && negb (Qle_bool (10746969 # 2) r)
      then Some (mkDateTime (Qfloor (r * 86400000 + (1 # 2))) None)
      else None
  end.

(** [isDate] with the single argument the program passes.  [now] is the
    engine's clock, as a Julian day number in milliseconds (UTC). *)
Definition isDate (e : engine) (now : Z) (z : string) : option DateTime :=
  match parseDateOrTime e z with
  | None => None
  | Some v =>
      match computeJD now v with
      | None => None
      | Some p =>
          if validJulianDay (iJD p) then
            match ymd p with
            | Some d =>
                if normalize_ymd e && (28 <? D d)
                then Some (mkDateTime (iJD p) None)
                else Some p
            | None => Some p
            end
          else None
      end
  end.

(** ** Formatting *)

Definition digit_char (d : Z) : ascii := ascii_of_N (Z.to_N (48 + d)).

(** [%02d], for 0..99. *)
Definition fmt02d (n : Z) : string :=
  String (digit_char (n / 10)) (String (digit_char (n mod 10)) "").

(** [%04d], for -9999..9999; the sign counts towards the width. *)
Definition fmt04d (n : Z) : string :=
  if n <? 0 then
    let a := - n in
    String "-"
      ((if a <? 1000 then "" else String (digit_char (a / 1000)) "")
       ++ String (digit_char (a / 100 mod 10)) (fmt02d (a mod 100)))
  else
    String (digit_char (n / 1000))
      (String (digit_char (n / 100 mod 10)) (fmt02d (n mod 100))).

(** ** [strftime('%Y-%m', z)] on a TEXT argument

    [None] is SQL NULL. *)
Definition strftime_Ym (e : engine) (now : Z) (z : string) : option string :=
  match isDate e now z with
  | None => None
  | Some p =>
      let d := match ymd p with Some d => d | None => ymd_of_jd e (iJD p) end in
      Some (fmt04d (Y d) ++ "-" ++ fmt02d (M d))
  end.

End Sqlite.

(** ** TEXT comparison and ORDER BY

    The BINARY collation: [memcmp] on the common length, then the shorter
    string first.  Bytes compare as unsigned numbers. *)
Fixpoint text_cmp (a b : string) : comparison :=
  match a, b with
  | EmptyString, EmptyString => Eq
  | EmptyString, String _ _ => Lt
  | String _ _, EmptyString => Gt
  | String x a', String y b' =>
      match Sqlite.code x ?= Sqlite.code y with
      | Eq => text_cmp a' b'
      | Lt => Lt
      | Gt => Gt
      end
  end.

Definition text_le (a b : string) : bool :=
  match text_cmp a b with Gt => false | _ => true end.

(** The sorter behind ORDER BY and GROUP BY: rows come out in ascending key
    order, rows with equal keys in the order they were scanned. *)
Section Sorter.
Context {A : Type} (key : A -> string).

Fixpoint sorter_insert (x : A) (l : list A) : list A :=
  match l with
  | [] => [x]
  | y :: l' =>
      if text_le (key x) (key y) then x :: l else y :: sorter_insert x l'
  end.

Definition order_by (rows : list A) : list A :=
  fold_right sorter_insert [] rows.
End Sorter.

(** ** SUM

    [sumStep] and [sumFinalize]: the aggregate starts from 0.0, adds every
    value to the running sum in the order the rows arrive, and yields NULL
    when it saw no row.  [+] stands for the addition of binary64, which
    rounds; newer releases of the engine also carry a correction term
    (Kahan-Babuska summation), which changes the rounding and nothing
    else. *)
Record SumCtx : Type := mkSumCtx { rSum : Q; cnt : Z }.

Definition sumInit : SumCtx := mkSumCtx 0 0.

Definition sumStep (p : SumCtx) (v : Q) : SumCtx :=
  mkSumCtx (rSum p + v) (cnt p + 1).

Definition sumFinalize (p : SumCtx) : option Q :=
  if 0 <? cnt p then Some (rSum p) else None.

Definition sql_sum (vals : list Q) : option Q :=
  sumFinalize (fold_left sumStep vals sumInit).

(** GROUP BY over rows already sorted by key: one output row per run of
    equal keys, carrying that run's SUM. *)
Fixpoint group_runs (cur : string) (p : SumCtx) (rows : list (string * Q))
  : list (string * option Q) :=
  match rows with
  | [] => [(cur, sumFinalize p)]
  | (c, v) :: rest =>
      if String.eqb c cur then group_runs cur (sumStep p v) rest
      else (cur, sumFinalize p) :: group_runs c (sumStep sumInit v) rest
  end.

Definition group_by_sum (rows : list (string * Q)) : list (string * option Q) :=
  match order_by fst rows with
  | [] => []
  | (c, v) :: rest => group_runs c (sumStep sumInit v) rest
  end.

(* ================================================================== *)
(** * The two tables *)
(* ================================================================== *)

(** A row of [expenses]. [note] is the only nullable column. *)
Record Expense : Type := mkExpense {
  id : Z;
  date : string;
  category : string;
  amount : Q;
  note : option string
}.

(** A row of [budget]. *)
Record Budget : Type := mkBudget {
  month : string;
  budget_amount : Q
}.

(** The database file.  [expenses] lists the rows in rowid order, which is
    the order a table scan visits them.  [sqlite_sequence] is the counter
    AUTOINCREMENT keeps for [expenses]: the largest rowid ever handed
    out, 0 before the first insert. *)
Record Db : Type := mkDb {
  expenses : list Expense;
  sqlite_sequence : Z;
  budget : list Budget
}.

Definition empty_db : Db := mkDb [] 0 [].

(** [init_db]: CREATE TABLE IF NOT EXISTS, twice.  A missing file becomes an
    empty database, an existing one is left as it is. *)
Definition init_db (file : option Db) : Db :=
  match file with
  | None => empty_db
  | Some db => db
  end.

(** Exceptions the statements can raise. *)
Inductive exn : Type :=
| OverflowError      (* Python int too large to convert to SQLite INTEGER *)
| OperationalError.  (* database or disk is full *)

Inductive result (A : Type) : Type :=
| Ok (a : A)
| Raise (e : exn).
Arguments Ok {A} a.
Arguments Raise {A} e.

Definition MAX_ROWID : Z := 9223372036854775807.
Definition MIN_ROWID : Z := -9223372036854775808.

Definition fits_int64 (n : Z) : bool := (MIN_ROWID <=? n) && (n <=? MAX_ROWID).

(** ** The statements *)

(** The largest rowid of a non-empty table. *)
Fixpoint max_rowid (first : Z) (rows : list Expense) : Z :=
  match rows with
  | [] => first
  | r :: rows' => max_rowid (Z.max first (id r)) rows'
  end.

(** The rowid AUTOINCREMENT picks ([OP_NewRowid]): one more than the largest
    rowid in the table, raised to one more than the counter; SQLITE_FULL
    when either has reached the largest 64-bit integer. *)
Definition new_rowid (db : Db) : option Z :=
  let v :=
    match expenses db with
    | [] => Some 1
    | r :: rows =>
        let k := max_rowid (id r) rows in
        if k =? MAX_ROWID then None else Some (k + 1)
    end in
  match v with
  | None => None
  | Some v =>
      if sqlite_sequence db =? MAX_ROWID then None
      else if v <? sqlite_sequence db + 1 then Some (sqlite_sequence db + 1)
      else Some v
  end.

(** INSERT INTO expenses (date, category, amount, note) VALUES (?, ?, ?, ?).
    Returns the new database and the rowid of the new row. *)
Definition insert_expense (db : Db) (date_str category : string) (amount : Q)
    (note : option string) : result (Db * Z) :=
  match new_rowid db with
  | None => Raise OperationalError
  | Some rowid =>
      Ok (mkDb (expenses db ++ [mkExpense rowid date_str category amount note])
               rowid
               (budget db),
          rowid)
  end.

(** INSERT INTO budget (month, amount) VALUES (?, ?)
    ON CONFLICT(month) DO UPDATE SET amount = excluded.amount. *)
Fixpoint upsert (rows : list Budget) (month_key : string) (amount : Q)
  : list Budget :=
  match rows with
  | [] => [mkBudget month_key amount]
  | r :: rows' =>
      if String.eqb (month r) month_key
      then mkBudget (month r) amount :: rows'
      else r :: upsert rows' month_key amount
  end.

Definition upsert_budget (db : Db) (month_key : string) (amount : Q) : Db :=
  mkDb (expenses db) (sqlite_sequence db) (upsert (budget db) month_key amount).

(** SELECT id, date, category, amount, note FROM expenses ORDER BY date. *)
Definition select_expenses (db : Db) : list Expense :=
  order_by date (expenses db).

(** The WHERE clause of both summaries: strftime('%Y-%m', date) = ?.
    A NULL on the left makes the comparison NULL and the row is dropped. *)
Definition in_month (e : Sqlite.engine) (now : Z) (month_key : string)
    (r : Expense) : bool :=
  match Sqlite.strftime_Ym e now (date r) with
  | Some ym => String.eqb ym month_key
  | None => false
  end.

(** SELECT SUM(amount) FROM expenses WHERE strftime('%Y-%m', date) = ?. *)
Definition select_sum_amount (e : Sqlite.engine) (now : Z) (db : Db)
    (month_key : string) : option Q :=
  sql_sum (map amount (filter (in_month e now month_key) (expenses db))).

(** SELECT amount FROM budget WHERE month = ?, then [fetchone]. *)
Definition select_budget (db : Db) (month_key : string) : option Budget :=
  find (fun r => String.eqb (month r) month_key) (budget db).

(** SELECT category, SUM(amount) FROM expenses
    WHERE strftime('%Y-%m', date) = ? GROUP BY category. *)
Definition select_category_sums (e : Sqlite.engine) (now : Z) (db : Db)
    (month_key : string) : list (string * option Q) :=
  group_by_sum
    (map (fun r => (category r, amount r))
         (filter (in_month e now month_key) (expenses db))).

(** DELETE FROM expenses WHERE id = ?, with [cur.rowcount]. *)
Definition delete_from_expenses (db : Db) (expense_id : Z) : Db * Z :=
  let keep := filter (fun r => negb (id r =? expense_id)) (expenses db) in
  (mkDb keep (sqlite_sequence db) (budget db),
   Z.of_nat (List.length (expenses db)) - Z.of_nat (List.length keep)).

(* ================================================================== *)
(** * The Python side *)
(* ================================================================== *)

Module Py.

(** ** [str.strip()]

    Strips the characters Python counts as white space.  On the UTF-8
    encoding these are the bytes 09..0D, 1C..1F and 20, the two-byte
    sequences of U+0085 and U+00A0, and the three-byte sequences of U+1680,
    U+2000..U+200A, U+2028, U+2029, U+202F, U+205F and U+3000. *)
Definition space1 (a : ascii) : bool :=
  let x := Sqlite.code a in
  ((9 <=? x) && (x <=? 13)) || ((28 <=? x) && (x <=? 32)).

Definition space2 (a b : ascii) : bool :=
  let x := Sqlite.code a in
  let y := Sqlite.code b in
  (x =? 194) && ((y =? 133) || (y =? 160)).

Definition space3 (a b c : ascii) : bool :=
  let x := Sqlite.code a in
  let y := Sqlite.code b in
  let z := Sqlite.code c in
  ((x =? 225) && (y =? 154) && (z =? 128))
  || ((x =? 226) && (y =? 128)
      && (((128 <=? z) && (z <=? 138)) || (z =? 168) || (z =? 169) || (z =? 175)))
  || ((x =? 226) && (y =? 129) && (z =? 159))
  || ((x =? 227) && (y =? 128) && (z =? 128)).

(** Drops white space from the front.  With [back] the input is a reversed
    string, whose multi-byte characters arrive last byte first. *)
Fixpoint strip_front (back : bool) (s : string) : string :=
  match s with
  | String a s1 =>
      if space1 a then strip_front back s1
      else
        match s1 with
        | String b s2 =>
            if (if back then space2 b a else space2 a b)
            then strip_front back s2
            else
              match s2 with
              | String c s3 =>
                  if (if back then space3 c b a else space3 a b c)
                  then strip_front back s3
                  else s
              | EmptyString => s
              end
        | EmptyString => s
        end
  | EmptyString => s
  end.

Fixpoint rev_append (s acc : string) : string :=
  match s with
  | String a s' => rev_append s' (String a acc)
  | EmptyString => acc
  end.

Definition rev (s : string) : string := rev_append s "".

Definition strip (s : string) : string :=
  rev (strip_front true (rev (strip_front false s))).

(** ** The local clock

    [datetime.now()], as far as the program formats it: a year in 1..9999,
    a month and a day. *)
Record datetime : Type := mkDatetime { year : Z; month : Z; day : Z }.

(** [%Y].  Python hands the format to the C library, which prints the year
    as a plain decimal number: four digits from the year 1000 on, fewer
    before. *)
Definition fmt_year (y : Z) : string :=
  if y <? 10 then String (Sqlite.digit_char y) ""
  else if y <? 100 then Sqlite.fmt02d y
  else if y <? 1000 then String (Sqlite.digit_char (y / 100)) (Sqlite.fmt02d (y mod 100))
  else Sqlite.fmt04d y.

(** [now.strftime("%Y-%m")] *)
Definition strftime_Ym (now : datetime) : string :=
  fmt_year (year now) ++ "-" ++ Sqlite.fmt02d (month now).

(** [now.strftime("%Y-%m-%d")] *)
Definition strftime_Ymd (now : datetime) : string :=
  strftime_Ym now ++ "-" ++ Sqlite.fmt02d (day now).

End Py.

(** What the program reads from its surroundings: the SQLite release it is
    linked with, the engine's clock (UTC, a Julian day number in
    milliseconds) and Python's local clock. *)
Record World : Type := mkWorld {
  sqlite : Sqlite.engine;
  utc_now : Z;
  local_now : Py.datetime
}.

(** ** Helper functions *)

Definition get_current_month_key (w : World) : string :=
  Py.strftime_Ym (local_now w).

(** ** Core features *)

(** [add_expense].  The arguments are the three lines typed at the prompts
    and the amount [input_float] returned, a finite number.  ([nan] is
    bound as NULL, which NOT NULL refuses, and text that UTF-8 cannot
    encode is refused by the binding: either way the insert raises and
    nothing is written.)  The failure left is the one of the rowid. *)
Definition add_expense (w : World) (db : Db) (date_input category_input : string)
    (amount : Q) (note_input : string) : result Db :=
  let date_str := Py.strip date_input in
  let date_str :=
    if String.eqb date_str "" then Py.strftime_Ymd (local_now w) else date_str in
  let category := Py.strip category_input in
  let note := Py.strip note_input in
  match insert_expense db date_str category amount (Some note) with
  | Ok (db', _) => Ok db'
  | Raise x => Raise x
  end.

(** [set_monthly_budget], with the amount [input_float] returned. *)
Definition set_monthly_budget (w : World) (db : Db) (amount : Q) : Db :=
  upsert_budget db (get_current_month_key w) amount.

(** [view_all_expenses]: the rows it prints, in the order it prints them. *)
Definition view_all_expenses (db : Db) : list Expense :=
  select_expenses db.

(** The three messages [view_month_summary] chooses between. *)
Inductive BudgetStatus : Type :=
| Unset                      (* No budget set for this month. *)
| WithinBudget (remaining : Q) (* You are within budget. Remaining: ... *)
| Exceeded (overage : Q).      (* Budget exceeded by: ... *)

(** The total of a month: the SUM, with 0.0 in place of NULL. *)
Definition sum_expenses_for_month (e : Sqlite.engine) (now : Z) (db : Db)
    (month_key : string) : Q :=
  match select_sum_amount e now db month_key with
  | Some total => total
  | None => 0
  end.

(** The budget of a month: [row[0] if row else None]. *)
Definition get_budget (db : Db) (month_key : string) : option Q :=
  match select_budget db month_key with
  | Some row => Some (budget_amount row)
  | None => None
  end.

(** The judgement at the end of [view_month_summary], for a finite total
    and a finite budget. *)
Definition evaluate (total_expense : Q) (budget_amount : option Q)
  : BudgetStatus :=
  match budget_amount with
  | None => Unset
  | Some b =>
      let remaining := (b - total_expense)%Q in
      if Qle_bool 0 remaining then WithinBudget remaining
      else Exceeded (- remaining)
  end.

(** [view_month_summary]: the total, the budget and the judgement printed. *)
Definition view_month_summary (w : World) (db : Db)
  : Q * option Q * BudgetStatus :=
  let month_key := get_current_month_key w in
  let total_expense := sum_expenses_for_month (sqlite w) (utc_now w) db month_key in
  let budget_amount := get_budget db month_key in
  (total_expense, budget_amount, evaluate total_expense budget_amount).

(** [view_category_wise_summary]: the rows fetched. *)
Definition view_category_wise_summary (w : World) (db : Db)
  : list (string * option Q) :=
  select_category_sums (sqlite w) (utc_now w) db (get_current_month_key w).

(** [delete_expense], once [int(input(...))] has produced a number.  The
    binding refuses a Python int outside the signed 64-bit range before the
    statement runs. *)
Definition delete_expense (db : Db) (expense_id : Z) : result (Db * Z) :=
  if fits_int64 expense_id then Ok (delete_from_expenses db expense_id)
  else Raise OverflowError.

(* ================================================================== *)
(** * Vocabulary of the specification *)
(* ================================================================== *)

(** The arithmetic sum of a list of amounts. *)
Definition total (l : list Q) : Q := fold_right Qplus 0%Q l.

(** The first seven characters of an expense's date. *)
Definition date_prefix (r : Expense) : string := substring 0 7 (date r).

(** The expenses a prefix test would put into a month. *)
Definition prefix_matches (db : Db) (month_key : string) : list Expense :=
  filter (fun r => String.eqb (date_prefix r) month_key) (expenses db).

(** Calendar dates written [YYYY-MM-DD]. *)
Definition is_leap (y : Z) : bool :=
  ((y mod 4 =? 0) && negb (y mod 100 =? 0)) || (y mod 400 =? 0).

Definition days_in_month (y mo : Z) : Z :=
  if mo =? 2 then (if is_leap y then 29 else 28)
  else if (mo =? 4) || (mo =? 6) || (mo =? 9) || (mo =? 11) then 30
  else 31.

Definition iso_date (y mo d : Z) : string :=
  Sqlite.fmt04d y ++ "-" ++ Sqlite.fmt02d mo ++ "-" ++ Sqlite.fmt02d d.

Definition is_iso_date (s : string) : Prop :=
  exists y mo d,
    0 <= y <= 9999 /\ 1 <= mo <= 12 /\ 1 <= d <= days_in_month y mo /\
    s = iso_date y mo d.



(** Lexicographic order on byte strings. *)
Inductive lex_le : string -> string -> Prop :=
| lex_le_nil : forall b, lex_le "" b
| lex_le_lt : forall x a y b,
    Sqlite.code x < Sqlite.code y -> lex_le (String x a) (String y b)
| lex_le_eq : forall x a b, lex_le a b -> lex_le (String x a) (String x b).

(** The rows kept apart by PRIMARY KEY. *)
Definition unique_ids (db : Db) : Prop := NoDup (map id (expenses db)).
Definition unique_months (db : Db) : Prop := NoDup (map month (budget db)).

(** AUTOINCREMENT keeps its counter at or above every rowid in the table. *)
Definition sequence_covers (db : Db) : Prop :=
  Forall (fun r => id r <= sqlite_sequence db) (expenses db).

(** Rowids can still be handed out. *)
Definition rowids_left (db : Db) : Prop :=
  sqlite_sequence db < MAX_ROWID /\
  Forall (fun r => id r < MAX_ROWID) (expenses db).

(** ** Runs of the store *)

(** The statements that change the database, as a user session issues
    them.  A statement that raises leaves the file as it was. *)
Inductive op : Type :=
| OpAdd (date_str category : string) (amount : Q) (note : option string)
| OpDelete (expense_id : Z)
| OpSetBudget (month_key : string) (amount : Q).

Definition step (db : Db) (o : op) : Db :=
  match o with
  | OpAdd d c a n =>
      match insert_expense db d c a n with
      | Ok (db', _) => db'
      | Raise _ => db
      end
  | OpDelete i =>
      match delete_expense db i with
      | Ok (db', _) => db'
      | Raise _ => db
      end
  | OpSetBudget k a => upsert_budget db k a
  end.

Definition run (db : Db) (ops : list op) : Db := fold_left step ops db.

(** The identity an operation hands out, if any. *)
Definition assigned (db : Db) (o : op) : list Z :=
  match o with
  | OpAdd d c a n =>
      match insert_expense db d c a n with
      | Ok (_, rowid) => [rowid]
      | Raise _ => []
      end
  | _ => []
  end.

(** The identities handed out along a run, oldest first. *)
Fixpoint assigned_ids (db : Db) (ops : list op) : list Z :=
  match ops with
  | [] => []
  | o :: ops' => assigned db o ++ assigned_ids (step db o) ops'
  end.

(** A session that only sets budgets. *)
Definition set_budgets (db : Db) (l : list (string * Q)) : Db :=
  fold_left (fun d o => upsert_budget d (fst o) (snd o)) l db.

(* ================================================================== *)
(** * Definitions used by the proofs *)
(* ================================================================== *)

(** Ordering of rows by a TEXT key. *)
Definition key_le {A : Type} (key : A -> string) (x y : A) : Prop :=
  lex_le (key x) (key y).

(** The rows of one group. *)
Definition same_key (c : string) (r : string * Q) : bool := String.eqb (fst r) c.

Module Calendar.
Import Sqlite.

(** The day count of [day_of_ymd] with floor division, for a year that
    stays non-negative after the shift of January and February. *)
Definition day_floor (y mo d : Z) : Z :=
  let '(y', mo') := if mo <=? 2 then (y - 1, mo + 12) else (y, mo) in
  36525 * (y' + 4716) / 100 + 306001 * (mo' + 1) / 10000 + d
  + (2 - y' / 100 + y' / 100 / 4).

(** [ymd_of_day] with floor division, for the corrected century term. *)
Definition ymd_floor (Z0 : Z) : YMD :=
  let alpha := (4 * Z0 + 128179) / 146097 - 52 in
  let A := Z0 + 1 + alpha - (alpha + 100) / 4 + 25 in
  let B := A + 1524 in
  let C := (20 * B - 2442) / 7305 in
  let D0 := 36525 * C / 100 in
  let E := (B - D0) * 10000 / 306001 in
  let X1 := 306001 * E / 10000 in
  let mo := if E <? 14 then E - 1 else E - 13 in
  mkYMD (if 2 <? mo then C - 4716 else C - 4715) mo (B - D0 - X1).

(** A check over the integers [lo], [lo + 1], ..., [lo + n - 1]. *)
Fixpoint range_all (n : nat) (lo : Z) (f : Z -> bool) : bool :=
  match n with
  | O => true
  | S n' => f lo && range_all n' (lo + 1) f
  end.

Definition ymd_eqb (a b : YMD) : bool :=
  (Y a =? Y b) && (M a =? M b) && (D a =? D b).

(** The days 29, 30 and 31 of every month of year [y], where they exist,
    survive the trip through the Julian day number. *)
Definition round_trip (e : engine) (y : Z) : bool :=
  range_all 12 1 (fun mo =>
    range_all 3 29 (fun d =>
      if d <=? days_in_month y mo
      then ymd_eqb (ymd_of_jd e (jd_of_ymd (mkYMD y mo d))) (mkYMD y mo d)
      else true)).

End Calendar.

(** ** Example data *)

(** Noon of 5 December 2025 on the engine's clock, and the same day on the
    local one. *)
Definition noon_2025_12_05 : Z := 212631696000000.

Definition a_world (e : Sqlite.engine) : World :=
  mkWorld e noon_2025_12_05 (Py.mkDatetime 2025 12 5).

(** One expense whose day of month lacks its leading zero. *)
Definition db_unpadded_day : Db :=
  mkDb [mkExpense 1 "2025-12-5" "Food" 150 (Some "lunch")] 1 [].

(** Three expenses of December 2025 and one of November. *)
Definition db_december : Db :=
  mkDb [mkExpense 1 "2025-12-05" "Travel" 100 (Some "bus");
        mkExpense 2 "2025-12-09" "Food" 50 (Some "lunch");
        mkExpense 3 "2025-11-30" "Food" 70 None;
        mkExpense 4 "2025-12-31" "Travel" 200 (Some "train")]
       4 [mkBudget "2025-12" 1000].


(* ================================================================== *)
(** * The prompts, and more vocabulary *)
(* ================================================================== *)

(** A Python float: a finite value, an infinity or not-a-number. *)
Inductive PyFloat : Type :=
| Finite (q : Q)
| Infinity (negative : bool)
| NaN.

(** [value < 0] *)
Definition below_zero (value : PyFloat) : bool :=
  match value with
  | Finite q => negb (Qle_bool 0 q)
  | Infinity negative => negative
  | NaN => false
  end.

(** The two complaints of [input_float]. *)
Inductive complaint : Type :=
| AmountNegative   (* Amount cannot be negative. Try again. *)
| InvalidInput.    (* Invalid input. Please enter a numeric value. *)

Section InputFloat.
(** The built-in [float] applied to a line of input; [None] is ValueError. *)
Variable float : string -> option PyFloat.

(** [input_float] on the lines still to be read from the console: the value
    returned, the complaints printed on the way and the lines left over.
    [None] is the EOFError of [input] when the lines run out. *)
Fixpoint input_float (lines : list string)
  : option (PyFloat * list complaint * list string) :=
  match lines with
  | [] => None
  | line :: rest =>
      match float line with
      | Some value =>
          if below_zero value then
            match input_float rest with
            | Some (v, out, rest') => Some (v, AmountNegative :: out, rest')
            | None => None
            end
          else Some (value, [], rest)
      | None =>
          match input_float rest with
          | Some (v, out, rest') => Some (v, InvalidInput :: out, rest')
          | None => None
          end
      end
  end.

(** A line [input_float] asks again for, with its complaint. *)
Definition refused (line : string) (c : complaint) : Prop :=
  match float line with
  | Some value => below_zero value = true /\ c = AmountNegative
  | None => c = InvalidInput
  end.
End InputFloat.

(** A stand-in for [float] on four inputs. *)
Definition float_of_example (line : string) : option PyFloat :=
  if String.eqb line "12.5" then Some (Finite (25 # 2))
  else if String.eqb line "-3" then Some (Finite (-3))
  else if String.eqb line "nan" then Some NaN
  else None.

(** The local clock shows a calendar date of the years 1000 to 9999. *)
Definition calendar_clock (w : World) : Prop :=
  let n := local_now w in
  1000 <= Py.year n <= 9999 /\ 1 <= Py.month n <= 12 /\
  1 <= Py.day n <= days_in_month (Py.year n) (Py.month n).

(** No stored amount is negative. *)
Definition nonneg_amounts (db : Db) : Prop :=
  Forall (fun r => (0 <= amount r)%Q) (expenses db).

(** The table lists its rows by ascending rowid. *)
Definition ascending_ids (db : Db) : Prop :=
  StronglySorted Z.lt (map id (expenses db)).

(** Rowids are positive 64-bit integers, and so is the counter once used. *)
Definition ids_in_range (db : Db) : Prop :=
  0 <= sqlite_sequence db <= MAX_ROWID /\
  Forall (fun r => 1 <= id r <= MAX_ROWID) (expenses db).

(** What every database written by the program alone satisfies. *)
Definition well_formed (db : Db) : Prop :=
  unique_ids db /\ unique_months db /\ sequence_covers db /\
  ascending_ids db /\ ids_in_range db.

(** One calendar date is not after another. *)
Definition on_or_before (y mo d y' mo' d' : Z) : Prop :=
  y < y' \/ (y = y' /\ (mo < mo' \/ (mo = mo' /\ d <= d'))).

Definition not_after (a b : string) : Prop :=
  exists y mo d y' mo' d',
    (0 <= y <= 9999 /\ 1 <= mo <= 12 /\ 1 <= d <= 31) /\
    (0 <= y' <= 9999 /\ 1 <= mo' <= 12 /\ 1 <= d' <= 31) /\
    a = iso_date y mo d /\ b = iso_date y' mo' d' /\
    on_or_before y mo d y' mo' d'.

(** The string begins with white space ([back]: the reversed string ends
    with it). *)
Definition leading_space (back : bool) (s : string) : bool :=
  match s with
  | String a s1 =>
      Py.space1 a ||
      match s1 with
      | String b s2 =>
          (if back then Py.space2 b a else Py.space2 a b) ||
          match s2 with
          | String c s3 => if back then Py.space3 c b a else Py.space3 a b c
          | EmptyString => false
          end
      | EmptyString => false
      end
  | EmptyString => false
  end.

(** Text without white space at either end. *)
Definition trimmed (s : string) : Prop :=
  leading_space false s = false /\ leading_space true (Py.rev s) = false /\
  Py.strip s = s.

(* ================================================================== *)
(** * Proofs *)
(* ================================================================== *)

Ltac div_lia := Z.to_euclidean_division_equations; lia.

Ltac month_cases mo H :=
  assert (mo = 1 \/ mo = 2 \/ mo = 3 \/ mo = 4 \/ mo = 5 \/ mo = 6 \/
          mo = 7 \/ mo = 8 \/ mo = 9 \/ mo = 10 \/ mo = 11 \/ mo = 12) as H by lia;
  repeat (destruct H as [H|H]); subst mo.

(** * Calendar arithmetic *)

Module CalendarFacts.
Import Sqlite Calendar.

Lemma quot_div a b : 0 <= a -> 0 < b -> a ÷ b = a / b.
Proof. intros. apply Z.quot_div_nonneg; lia. Qed.

Lemma day_of_ymd_floor y mo d :
  1 <= y -> 1 <= mo -> day_of_ymd (mkYMD y mo d) = day_floor y mo d.
Proof.
  intros Hy Hm. unfold day_of_ymd, day_floor. cbn [Y M D].
  destruct (mo <=? 2) eqn:E; cbv beta iota zeta.
  - rewrite (quot_div (y - 1) 100), (quot_div (36525 * _)), (quot_div (306001 * _)) by lia.
    rewrite (quot_div ((y - 1) / 100)) by (try apply Z.div_pos; lia). reflexivity.
  - rewrite (quot_div y 100), (quot_div (36525 * _)), (quot_div (306001 * _)) by lia.
    rewrite (quot_div (y / 100)) by (try apply Z.div_pos; lia). reflexivity.
Qed.

Lemma day_floor_400 y mo d : day_floor (y + 400) mo d = day_floor y mo d + 146097.
Proof.
  assert (H1 : forall t, (t + 400) / 100 = t / 100 + 4) by (intros; div_lia).
  assert (H2 : forall t, (t + 4) / 4 = t / 4 + 1) by (intros; div_lia).
  assert (H3 : forall t, 36525 * (t + 400 + 4716) / 100
                         = 36525 * (t + 4716) / 100 + 146100) by (intros; div_lia).
  unfold day_floor. destruct (mo <=? 2).
  - replace (y + 400 - 1) with (y - 1 + 400) by ring.
    rewrite H3, H1, H2. ring.
  - rewrite H3, H1, H2. ring.
Qed.

Lemma ymd_of_jd_of_ymd e d :
  ymd_of_jd e (jd_of_ymd d) = ymd_of_day e (day_of_ymd d - 1524).
Proof.
  unfold ymd_of_jd, jd_of_ymd. f_equal.
  replace ((2 * day_of_ymd d - 3049) * 43200000 + 43200000)
    with ((day_of_ymd d - 1524) * 86400000) by ring.
  apply Z.quot_mul. lia.
Qed.

Lemma land_32767 c : 0 <= c < 32768 -> Z.land c 32767 = c.
Proof.
  intros H. change 32767 with (Z.ones 15).
  rewrite Z.land_ones by lia. apply Z.mod_small. change (2 ^ 15) with 32768. lia.
Qed.

Lemma ymd_of_day_floor e Z0 :
  ymd_alpha e = true -> 0 <= Z0 <= 5600000 ->
  ymd_of_day e Z0 = ymd_floor Z0.
Proof.
  intros He Hz. unfold ymd_of_day, ymd_floor. rewrite He.
  rewrite (quot_div (4 * Z0 + 128179)) by lia.
  set (alpha := (4 * Z0 + 128179) / 146097 - 52).
  assert (Ha : -52 <= alpha <= 102) by (unfold alpha; div_lia).
  rewrite (quot_div (alpha + 100)) by lia.
  set (A := Z0 + 1 + alpha - (alpha + 100) / 4 + 25).
  assert (HA : Z0 - 40 <= A <= Z0 + 80) by (unfold A; div_lia).
  rewrite (quot_div (20 * (A + 1524) - 2442)) by lia.
  set (C := (20 * (A + 1524) - 2442) / 7305).
  assert (HC : 0 <= C < 32768) by (unfold C; div_lia).
  rewrite land_32767 by assumption.
  rewrite (quot_div (36525 * C)) by lia.
  set (D0 := 36525 * C / 100).
  assert (HD : 122 <= A + 1524 - D0 <= 500) by (unfold D0, C; div_lia).
  rewrite (quot_div ((A + 1524 - D0) * 10000)) by lia.
  set (E := (A + 1524 - D0) * 10000 / 306001).
  assert (HE : 0 <= E) by (unfold E; div_lia).
  rewrite (quot_div (306001 * E)) by lia.
  reflexivity.
Qed.

Lemma ymd_floor_400 Z0 :
  ymd_floor (Z0 + 146097) =
  mkYMD (Y (ymd_floor Z0) + 400) (M (ymd_floor Z0)) (D (ymd_floor Z0)).
Proof.
  unfold ymd_floor.
  replace (4 * (Z0 + 146097) + 128179) with (4 * Z0 + 128179 + 4 * 146097) by ring.
  rewrite Z.div_add by lia.
  set (alpha := (4 * Z0 + 128179) / 146097 - 52).
  replace ((4 * Z0 + 128179) / 146097 + 4 - 52) with (alpha + 4) by (unfold alpha; ring).
  replace (alpha + 4 + 100) with (alpha + 100 + 1 * 4) by ring.
  rewrite Z.div_add by lia.
  set (A := Z0 + 1 + alpha - (alpha + 100) / 4 + 25).
  replace (Z0 + 146097 + 1 + (alpha + 4) - ((alpha + 100) / 4 + 1) + 25)
    with (A + 146100) by (unfold A; ring).
  replace (20 * (A + 146100 + 1524) - 2442)
    with (20 * (A + 1524) - 2442 + 400 * 7305) by ring.
  rewrite Z.div_add by lia.
  set (C := (20 * (A + 1524) - 2442) / 7305).
  replace (36525 * (C + 400)) with (36525 * C + 146100 * 100) by ring.
  rewrite Z.div_add by lia.
  set (D0 := 36525 * C / 100).
  replace (A + 146100 + 1524 - (D0 + 146100)) with (A + 1524 - D0) by ring.
  cbn [Y M D].
  set (E := (A + 1524 - D0) * 10000 / 306001).
  f_equal. destruct (2 <? (if E <? 14 then E - 1 else E - 13)); ring.
Qed.

(** Past February of the year 400 both century terms agree. *)
Lemma ymd_of_day_legacy e e' Z0 :
  ymd_alpha e = false -> ymd_alpha e' = true -> 1867217 <= Z0 ->
  ymd_of_day e Z0 = ymd_of_day e' Z0.
Proof.
  intros He He' Hz. unfold ymd_of_day. rewrite He, He'.
  rewrite (quot_div (4 * Z0 + 128179)), (quot_div (4 * Z0 - 7468865)) by lia.
  replace (4 * Z0 + 128179) with (4 * Z0 - 7468865 + 52 * 146097) by ring.
  rewrite Z.div_add by lia.
  set (A0 := (4 * Z0 - 7468865) / 146097).
  assert (H0 : 0 <= A0) by (unfold A0; apply Z.div_pos; lia).
  replace (A0 + 52 - 52) with A0 by ring.
  rewrite (quot_div A0), (quot_div (A0 + 100)) by lia.
  replace (A0 + 100) with (A0 + 25 * 4) by ring.
  rewrite Z.div_add by lia.
  replace (Z0 + 1 + A0 - (A0 / 4 + 25) + 25) with (Z0 + 1 + A0 - A0 / 4) by ring.
  reflexivity.
Qed.

Lemma day_of_ymd_year0 mo d :
  1 <= mo <= 12 -> 1 <= d <= 31 ->
  1722584 <= day_of_ymd (mkYMD 0 mo d) <= 1722949.
Proof.
  intros Hm Hd. month_cases mo H; unfold day_of_ymd; cbn [Y M D];
    cbv beta iota zeta delta [Z.leb Z.compare Pos.compare Pos.compare_cont];
    cbv beta iota; div_lia.
Qed.

Lemma day_floor_bounds y mo d :
  1 <= y <= 9999 -> 1 <= mo <= 12 -> 1 <= d <= 31 ->
  1722950 <= day_floor y mo d <= 5375008.
Proof.
  intros Hy Hm Hd.
  destruct (Z.eq_dec y 9999) as [->|N].
  - month_cases mo H; unfold day_floor;
      cbv beta iota zeta delta [Z.leb Z.compare Pos.compare Pos.compare_cont];
      cbv beta iota; div_lia.
  - unfold day_floor. destruct (mo <=? 2) eqn:E; div_lia.
Qed.

Lemma day_of_ymd_bounds y mo d :
  0 <= y <= 9999 -> 1 <= mo <= 12 -> 1 <= d <= 31 ->
  1722584 <= day_of_ymd (mkYMD y mo d) <= 5375008.
Proof.
  intros Hy Hm Hd. destruct (Z.eq_dec y 0) as [->|N].
  - pose proof (day_of_ymd_year0 mo d Hm Hd). lia.
  - rewrite day_of_ymd_floor by lia.
    pose proof (day_floor_bounds y mo d). lia.
Qed.

Lemma day_floor_past_400 y mo d :
  401 <= y -> 1 <= mo <= 12 -> 1 <= d ->
  1867217 + 1524 <= day_floor y mo d.
Proof.
  intros Hy Hm Hd. unfold day_floor. destruct (mo <=? 2) eqn:E; div_lia.
Qed.

Lemma validJulianDay_ymd y mo d :
  0 <= y <= 9999 -> 1 <= mo <= 12 -> 1 <= d <= 31 ->
  validJulianDay (jd_of_ymd (mkYMD y mo d)) = true.
Proof.
  intros Hy Hm Hd. pose proof (day_of_ymd_bounds y mo d Hy Hm Hd).
  unfold validJulianDay, jd_of_ymd. lia.
Qed.

Lemma range_all_spec n : forall lo f,
  range_all n lo f = true ->
  forall k, lo <= k < lo + Z.of_nat n -> f k = true.
Proof.
  induction n as [|n IH]; intros lo f H k Hk; [lia|].
  simpl in H. apply andb_prop in H. destruct H as [H1 H2].
  destruct (Z.eq_dec k lo) as [->|N]; [assumption|].
  apply (IH (lo + 1) f H2). lia.
Qed.

Lemma ymd_eqb_eq a b : ymd_eqb a b = true -> a = b.
Proof.
  unfold ymd_eqb. intros H.
  apply andb_prop in H. destruct H as [H H3].
  apply andb_prop in H. destruct H as [H1 H2].
  destruct a, b. simpl in *. f_equal; lia.
Qed.

Lemma round_trip_first_400 :
  range_all 401 0 (fun y => round_trip legacy_engine y && round_trip current_engine y)
  = true.
Proof. vm_compute. reflexivity. Qed.

Lemma ymd_of_day_alpha e e' Z0 :
  ymd_alpha e = ymd_alpha e' -> ymd_of_day e Z0 = ymd_of_day e' Z0.
Proof. intros H. unfold ymd_of_day. now rewrite H. Qed.

Lemma round_trip_base e y mo d :
  0 <= y <= 400 -> 1 <= mo <= 12 -> 29 <= d <= days_in_month y mo ->
  ymd_of_jd e (jd_of_ymd (mkYMD y mo d)) = mkYMD y mo d.
Proof.
  intros Hy Hm Hd.
  assert (Hd31 : d <= 31).
  { unfold days_in_month in Hd.
    destruct (mo =? 2); [destruct (is_leap y)|destruct (_ || _)]; lia. }
  pose proof (range_all_spec _ _ _ round_trip_first_400 y ltac:(lia)) as H.
  apply andb_prop in H.
  assert (R : round_trip (if ymd_alpha e then current_engine else legacy_engine) y = true)
    by (destruct (ymd_alpha e); tauto).
  unfold round_trip in R.
  pose proof (range_all_spec _ _ _ R mo ltac:(lia)) as R1. cbv beta in R1.
  pose proof (range_all_spec _ _ _ R1 d ltac:(lia)) as R2. cbv beta in R2.
  replace (d <=? days_in_month y mo) with true in R2 by lia.
  apply ymd_eqb_eq in R2. rewrite <- R2 at 2.
  unfold ymd_of_jd. apply ymd_of_day_alpha. now destruct (ymd_alpha e).
Qed.

Lemma days_in_month_400 y mo : days_in_month (y + 400) mo = days_in_month y mo.
Proof.
  unfold days_in_month, is_leap.
  replace ((y + 400) mod 4) with (y mod 4) by div_lia.
  replace ((y + 400) mod 100) with (y mod 100) by div_lia.
  replace ((y + 400) mod 400) with (y mod 400) by div_lia.
  reflexivity.
Qed.

Lemma days_in_month_400k (n : nat) y mo :
  days_in_month (y + 400 * Z.of_nat n) mo = days_in_month y mo.
Proof.
  induction n as [|n IH].
  - f_equal. lia.
  - replace (y + 400 * Z.of_nat (S n)) with (y + 400 * Z.of_nat n + 400) by lia.
    now rewrite days_in_month_400.
Qed.

Lemma round_trip_current e mo d (k : nat) : forall y,
  ymd_alpha e = true ->
  1 <= y <= 400 -> y + 400 * Z.of_nat k <= 9999 ->
  1 <= mo <= 12 -> 29 <= d <= days_in_month y mo ->
  ymd_of_jd e (jd_of_ymd (mkYMD (y + 400 * Z.of_nat k) mo d))
  = mkYMD (y + 400 * Z.of_nat k) mo d.
Proof.
  induction k as [|k IH]; intros y He Hy Hk Hm Hd.
  - replace (y + 400 * Z.of_nat 0) with y by lia. apply round_trip_base; lia.
  - assert (Hd31 : d <= 31).
    { unfold days_in_month in Hd.
      destruct (mo =? 2); [destruct (is_leap y)|destruct (_ || _)]; lia. }
    set (y' := y + 400 * Z.of_nat k) in *.
    replace (y + 400 * Z.of_nat (S k)) with (y' + 400) by lia.
    assert (IH' := IH y He Hy ltac:(lia) Hm Hd). fold y' in IH'.
    rewrite ymd_of_jd_of_ymd in *.
    rewrite day_of_ymd_floor in * by lia.
    pose proof (day_floor_bounds y' mo d ltac:(lia) Hm ltac:(lia)) as Hb.
    rewrite day_floor_400.
    rewrite ymd_of_day_floor in * by (assumption || lia).
    replace (day_floor y' mo d + 146097 - 1524)
      with (day_floor y' mo d - 1524 + 146097) by ring.
    rewrite ymd_floor_400, IH'. reflexivity.
Qed.

(** Reading back the Julian day number of a calendar date gives the date. *)
Lemma round_trip_ymd e y mo d :
  0 <= y <= 9999 -> 1 <= mo <= 12 -> 29 <= d <= days_in_month y mo ->
  ymd_of_jd e (jd_of_ymd (mkYMD y mo d)) = mkYMD y mo d.
Proof.
  intros Hy Hm Hd.
  destruct (Z_le_gt_dec y 400) as [L|G]; [apply round_trip_base; lia|].
  assert (Hc : forall e', ymd_alpha e' = true ->
             ymd_of_jd e' (jd_of_ymd (mkYMD y mo d)) = mkYMD y mo d).
  { intros e' He'.
    set (r := (y - 1) mod 400 + 1). set (k := (y - 1) / 400).
    assert (Er : y = r + 400 * Z.of_nat (Z.to_nat k)).
    { rewrite Z2Nat.id by (unfold k; div_lia). unfold r, k. div_lia. }
    assert (Hr : 1 <= r <= 400) by (unfold r; div_lia).
    assert (Ed : days_in_month y mo = days_in_month r mo).
    { rewrite Er at 1. apply days_in_month_400k. }
    rewrite Ed in Hd. clearbody r k. rewrite Er.
    apply round_trip_current; try assumption; lia. }
  destruct (ymd_alpha e) eqn:He; [now apply Hc|].
  rewrite ymd_of_jd_of_ymd, day_of_ymd_floor by lia.
  assert (Hd1 : 1 <= d) by lia.
  pose proof (day_floor_past_400 y mo d ltac:(lia) Hm Hd1).
  rewrite (ymd_of_day_legacy e current_engine) by (assumption || reflexivity || lia).
  rewrite <- day_of_ymd_floor, <- ymd_of_jd_of_ymd by lia.
  now apply Hc.
Qed.

(** * Reading back a formatted date *)

Lemma digit_char_digit k :
  0 <= k <= 9 ->
  isdigit (digit_char k) = true /\ digit_val (digit_char k) = k /\
  digit_char k <> "-"%char.
Proof.
  intros H.
  assert (C : k = 0 \/ k = 1 \/ k = 2 \/ k = 3 \/ k = 4 \/ k = 5 \/ k = 6 \/
              k = 7 \/ k = 8 \/ k = 9) by lia.
  repeat (destruct C as [C|C]); subst k; (split; [|split]); try reflexivity;
    discriminate.
Qed.

Lemma digits_two acc a b rest :
  0 <= a <= 9 -> 0 <= b <= 9 ->
  digits 2 acc (String (digit_char a) (String (digit_char b) rest))
  = Some ((acc * 10 + a) * 10 + b, rest).
Proof.
  intros Ha Hb.
  destruct (digit_char_digit a Ha) as [A1 [A2 _]].
  destruct (digit_char_digit b Hb) as [B1 [B2 _]].
  cbn [digits]. now rewrite A1, A2, B1, B2.
Qed.

Lemma field_two lo hi a b rest :
  0 <= a <= 9 -> 0 <= b <= 9 -> lo <= a * 10 + b <= hi ->
  field 2 lo hi (String (digit_char a) (String (digit_char b) rest))
  = Some (a * 10 + b, rest).
Proof.
  intros Ha Hb Hr. unfold field. rewrite digits_two by assumption.
  replace ((0 * 10 + a) * 10 + b) with (a * 10 + b) by ring.
  destruct (Z.leb_spec lo (a * 10 + b)); [|lia].
  destruct (Z.leb_spec (a * 10 + b) hi); [|lia]. reflexivity.
Qed.

Lemma field_four a b c d rest :
  0 <= a <= 9 -> 0 <= b <= 9 -> 0 <= c <= 9 -> 0 <= d <= 9 ->
  field 4 0 9999
    (String (digit_char a) (String (digit_char b)
      (String (digit_char c) (String (digit_char d) rest))))
  = Some (((a * 10 + b) * 10 + c) * 10 + d, rest).
Proof.
  intros Ha Hb Hc Hd. unfold field.
  destruct (digit_char_digit a Ha) as [A1 [A2 _]].
  destruct (digit_char_digit b Hb) as [B1 [B2 _]].
  cbn [digits]. rewrite A1, A2, B1, B2.
  fold (digits 2 ((0 * 10 + a) * 10 + b)
          (String (digit_char c) (String (digit_char d) rest))).
  rewrite digits_two by assumption.
  replace ((((0 * 10 + a) * 10 + b) * 10 + c) * 10 + d)
    with (((a * 10 + b) * 10 + c) * 10 + d) by ring.
  destruct (Z.leb_spec 0 (((a * 10 + b) * 10 + c) * 10 + d)); [|lia].
  destruct (Z.leb_spec (((a * 10 + b) * 10 + c) * 10 + d) 9999); [|lia].
  reflexivity.
Qed.

Lemma unsigned_head c z :
  c <> "-"%char ->
  match String c z with
  | String "-" z' => (true, z')
  | _ => (false, String c z)
  end = (false, String c z).
Proof.
  intros H.
  destruct c as [[] [] [] [] [] [] [] []]; try reflexivity.
  now elim H.
Qed.

(** The ten characters of [iso_date]. *)
Lemma iso_date_chars y mo d :
  0 <= y ->
  iso_date y mo d =
  String (digit_char (y / 1000)) (String (digit_char (y / 100 mod 10))
   (String (digit_char (y mod 100 / 10)) (String (digit_char (y mod 100 mod 10))
    (String "-" (String (digit_char (mo / 10)) (String (digit_char (mo mod 10))
     (String "-" (String (digit_char (d / 10)) (String (digit_char (d mod 10))
      ""))))))))).
Proof.
  intros Hy. unfold iso_date, fmt04d, fmt02d.
  destruct (Z.ltb_spec y 0); [lia|]. reflexivity.
Qed.

Lemma parse_iso_date y mo d :
  0 <= y <= 9999 -> 1 <= mo <= 12 -> 1 <= d <= 31 ->
  parseYyyyMmDd (iso_date y mo d) = Some (mkYMD y mo d, None).
Proof.
  intros Hy Hm Hd. rewrite iso_date_chars by lia.
  unfold parseYyyyMmDd.
  rewrite unsigned_head by (apply digit_char_digit; div_lia).
  rewrite field_four by div_lia.
  cbn [sep]. change (Ascii.eqb "-" "-") with true. cbv iota.
  rewrite field_two by div_lia.
  cbn [sep]. change (Ascii.eqb "-" "-") with true. cbv iota.
  rewrite field_two by div_lia.
  change (skip_space_T "") with "". change (parseHhMmSs "") with (@None HMS).
  cbv iota. do 2 f_equal. f_equal; div_lia.
Qed.

Lemma days_in_month_le y mo : 28 <= days_in_month y mo <= 31.
Proof.
  unfold days_in_month.
  destruct (mo =? 2); [destruct (is_leap y)|destruct (_ || _)]; lia.
Qed.

(** On a calendar date written [YYYY-MM-DD] every release answers with the
    first seven characters. *)
Lemma strftime_Ym_iso e now s :
  is_iso_date s -> strftime_Ym e now s = Some (substring 0 7 s).
Proof.
  intros [y [mo [d [Hy [Hm [Hd ->]]]]]].
  pose proof (days_in_month_le y mo) as Hdim.
  assert (Hd31 : 1 <= d <= 31) by lia.
  unfold strftime_Ym, isDate, parseDateOrTime.
  rewrite parse_iso_date by assumption.
  unfold computeJD. cbn [Y].
  destruct (Z.ltb_spec y (-4713)); [lia|].
  destruct (Z.ltb_spec 9999 y); [lia|]. cbn [orb iJD ymd].
  rewrite validJulianDay_ymd by assumption. cbn [D].
  assert (R : substring 0 7 (iso_date y mo d) = fmt04d y ++ "-" ++ fmt02d mo).
  { rewrite iso_date_chars by lia. unfold fmt04d, fmt02d.
    destruct (Z.ltb_spec y 0); [lia|]. reflexivity. }
  rewrite R.
  destruct (normalize_ymd e && (28 <? d)) eqn:N; cbn [ymd iJD].
  - apply andb_prop in N. destruct N as [_ N].
    rewrite round_trip_ymd by lia. reflexivity.
  - reflexivity.
Qed.

End CalendarFacts.

(** * The budget judgement *)

Lemma evaluate_unset total_expense : evaluate total_expense None = Unset.
Proof. reflexivity. Qed.

Lemma evaluate_within total_expense b :
  (0 <= b - total_expense)%Q ->
  evaluate total_expense (Some b) = WithinBudget (b - total_expense).
Proof.
  intros H. unfold evaluate.
  apply Qle_bool_iff in H. now rewrite H.
Qed.

Lemma evaluate_exceeded total_expense b :
  (b - total_expense < 0)%Q ->
  evaluate total_expense (Some b) = Exceeded (- (b - total_expense)).
Proof.
  intros H. unfold evaluate.
  destruct (Qle_bool 0 (b - total_expense)) eqn:E; [|reflexivity].
  apply Qle_bool_iff in E. exfalso. now apply (Qlt_not_le _ _ H).
Qed.

(** C2.  For every total and every optional budget the judgement is
    [Unset] when the budget is absent; otherwise, with
    [remaining = budget - total], it is [WithinBudget remaining] when
    [remaining >= 0] and [Exceeded (- remaining)] when [remaining < 0].
    A remainder of zero is within budget. *)
Theorem evaluate_spec (t : Q) (b : option Q) :
  match b with
  | None => evaluate t b = Unset
  | Some x =>
      let remaining := (x - t)%Q in
      ((0 <= remaining)%Q -> evaluate t b = WithinBudget remaining) /\
      ((remaining < 0)%Q -> evaluate t b = Exceeded (- remaining)) /\
      ((remaining == 0)%Q -> evaluate t b = WithinBudget remaining)
  end.
Proof.
  destruct b as [x|]; [|apply evaluate_unset].
  cbv zeta. repeat split.
  - apply evaluate_within.
  - apply evaluate_exceeded.
  - intros H. apply evaluate_within. rewrite H. apply Qle_refl.
Qed.

(** The four examples of the specification. *)
Lemma evaluate_spec_examples :
  evaluate 80 (Some 100%Q) = WithinBudget (100 - 80) /\
  evaluate 100 (Some 100%Q) = WithinBudget (100 - 100) /\
  evaluate 120 (Some 100%Q) = Exceeded (- (100 - 120)) /\
  evaluate 50 None = Unset.
Proof.
  pose proof (evaluate_spec 80 (Some 100%Q)) as H1.
  pose proof (evaluate_spec 100 (Some 100%Q)) as H2.
  pose proof (evaluate_spec 120 (Some 100%Q)) as H3.
  pose proof (evaluate_spec 50 None) as H4.
  cbv zeta in *.
  refine (conj _ (conj _ (conj _ _))).
  - apply (proj1 H1). unfold Qle; simpl; lia.
  - apply (proj2 (proj2 H2)). unfold Qeq; simpl; lia.
  - apply (proj1 (proj2 H3)). unfold Qlt; simpl; lia.
  - exact H4.
Defined.

(** * The budget table *)

Lemma upsert_months rows k a :
  In k (map month rows) -> map month (upsert rows k a) = map month rows.
Proof.
  induction rows as [|r rows IH]; simpl; [tauto|].
  intros H. destruct (String.eqb_spec (month r) k) as [E|E]; simpl.
  - reflexivity.
  - f_equal. apply IH. destruct H; [contradiction|assumption].
Qed.

Lemma upsert_months_new rows k a :
  ~ In k (map month rows) -> map month (upsert rows k a) = (map month rows ++ [k])%list.
Proof.
  induction rows as [|r rows IH]; simpl; [reflexivity|].
  intros H. destruct (String.eqb_spec (month r) k) as [E|E]; simpl.
  - exfalso. apply H. now left.
  - f_equal. apply IH. tauto.
Qed.

Lemma upsert_unique rows k a :
  NoDup (map month rows) -> NoDup (map month (upsert rows k a)).
Proof.
  intros H. destruct (in_dec string_dec k (map month rows)) as [I|I].
  - now rewrite upsert_months.
  - rewrite upsert_months_new by assumption.
    apply NoDup_rev in H. rewrite <- rev_involutive.
    apply NoDup_rev. rewrite rev_app_distr. simpl.
    constructor; [|assumption]. now rewrite <- in_rev.
Qed.

Lemma upsert_lookup rows k a :
  NoDup (map month rows) ->
  filter (fun r => String.eqb (month r) k) (upsert rows k a) = [mkBudget k a].
Proof.
  induction rows as [|r rows IH]; simpl; intros H.
  - now rewrite String.eqb_refl.
  - inversion H as [|? ? Hn Hd]; subst.
    destruct (String.eqb_spec (month r) k) as [E|E]; simpl.
    + rewrite E, String.eqb_refl. f_equal.
      subst k. clear -Hn.
      induction rows as [|r' rows IH]; simpl; [reflexivity|].
      destruct (String.eqb_spec (month r') (month r)) as [E'|E'].
      * exfalso. apply Hn. left. assumption.
      * apply IH. intros I. apply Hn. now right.
    + destruct (String.eqb_spec (month r) k); [contradiction|]. now apply IH.
Qed.

Lemma set_budgets_unique l : forall db,
  unique_months db -> unique_months (set_budgets db l).
Proof.
  induction l as [|[k a] l IH]; intros db H; simpl; [assumption|].
  apply IH. unfold unique_months, upsert_budget. simpl. now apply upsert_unique.
Qed.

(** C3.  After any sequence of budget settings the budget table holds at
    most one row per month; setting the budget of a month that has one
    replaces the amount and adds no row, and setting it twice leaves exactly
    one row for that month, with the later amount. *)
Theorem upsert_budget_one_per_month (db : Db) (l : list (string * Q))
    (k : string) (a1 a2 : Q) :
  unique_months db ->
  let db1 := set_budgets db l in
  let db2 := upsert_budget (upsert_budget db1 k a1) k a2 in
  unique_months db1 /\
  unique_months db2 /\
  filter (fun r => String.eqb (month r) k) (budget db2) = [mkBudget k a2] /\
  get_budget db2 k = Some a2 /\
  (In k (map month (budget db1)) ->
   map month (budget (upsert_budget db1 k a1)) = map month (budget db1)).
Proof.
  intros H db1 db2.
  assert (H1 : unique_months db1) by now apply set_budgets_unique.
  assert (H2 : unique_months (upsert_budget db1 k a1))
    by (unfold unique_months; simpl; now apply upsert_unique).
  assert (H3 : filter (fun r => String.eqb (month r) k) (budget db2) = [mkBudget k a2])
    by (unfold db2; simpl; now apply upsert_lookup).
  split; [exact H1|]. split; [|split; [exact H3|split]].
  - unfold unique_months, db2. simpl. now apply upsert_unique.
  - unfold get_budget, select_budget.
    revert H3. generalize (budget db2). clear.
    induction l as [|r l IH]; simpl; [discriminate|].
    destruct (String.eqb (month r) k).
    + intros E. injection E as ->. reflexivity.
    + exact IH.
  - intros I. simpl. now apply upsert_months.
Qed.

Lemma upsert_budget_one_per_month_witness :
  unique_months empty_db /\
  get_budget
    (upsert_budget
       (upsert_budget (set_budgets empty_db [("2025-11", 500%Q)]) "2025-12" 1000%Q)
       "2025-12" 1200%Q) "2025-12" = Some 1200%Q.
Proof.
  assert (H : unique_months empty_db) by constructor.
  split; [exact H|].
  exact (proj1 (proj2 (proj2 (proj2
    (upsert_budget_one_per_month empty_db [("2025-11", 500%Q)] "2025-12" 1000 1200 H))))).
Defined.

(** * Rowids *)

Lemma max_rowid_ge rows : forall first,
  first <= max_rowid first rows /\
  Forall (fun r => id r <= max_rowid first rows) rows.
Proof.
  induction rows as [|r rows IH]; intros first; simpl.
  - split; [lia|constructor].
  - destruct (IH (Z.max first (id r))) as [H1 H2].
    split; [lia|]. constructor; [lia|assumption].
Qed.

Lemma max_rowid_lt rows bound : forall first,
  first < bound -> Forall (fun r => id r < bound) rows ->
  max_rowid first rows < bound.
Proof.
  induction rows as [|r rows IH]; intros first H1 H2; simpl; [assumption|].
  inversion H2; subst. apply IH; [lia|assumption].
Qed.

Lemma new_rowid_above db v :
  new_rowid db = Some v ->
  sqlite_sequence db < v /\ Forall (fun r => id r < v) (expenses db).
Proof.
  unfold new_rowid.
  destruct (expenses db) as [|r rows] eqn:E.
  - destruct (sqlite_sequence db =? MAX_ROWID); [discriminate|].
    destruct (1 <? sqlite_sequence db + 1) eqn:L; intros [= <-];
      (split; [lia|constructor]).
  - destruct (max_rowid_ge rows (id r)) as [H1 H2].
    destruct (max_rowid (id r) rows =? MAX_ROWID); [discriminate|].
    destruct (sqlite_sequence db =? MAX_ROWID); [discriminate|].
    set (k := max_rowid (id r) rows) in *.
    assert (F : forall v', k < v' -> Forall (fun r0 => id r0 < v') (r :: rows)).
    { intros v' Hv. constructor; [lia|].
      eapply Forall_impl; [|exact H2]. simpl. intros; lia. }
    destruct (k + 1 <? sqlite_sequence db + 1) eqn:L; intros [= <-];
      (split; [lia|apply F; lia]).
Qed.

Lemma new_rowid_some db :
  rowids_left db -> exists v, new_rowid db = Some v.
Proof.
  intros [Hs Hr]. unfold new_rowid.
  assert (Es : (sqlite_sequence db =? MAX_ROWID) = false) by lia.
  destruct (expenses db) as [|r rows].
  - rewrite Es. destruct (1 <? _); eauto.
  - inversion Hr; subst.
    assert (max_rowid (id r) rows < MAX_ROWID) by now apply max_rowid_lt.
    replace (max_rowid (id r) rows =? MAX_ROWID) with false by lia.
    rewrite Es. destruct (_ <? _); eauto.
Qed.

Lemma insert_expense_ok db d c a n db' rowid :
  insert_expense db d c a n = Ok (db', rowid) ->
  new_rowid db = Some rowid /\
  db' = mkDb (expenses db ++ [mkExpense rowid d c a n]) rowid (budget db).
Proof.
  unfold insert_expense. destruct (new_rowid db); [|discriminate].
  intros [= <- <-]. auto.
Qed.

(** * The sorter *)

Section SorterFacts.
Context {A : Type} (key : A -> string).

Lemma sorter_insert_perm x l : Permutation (sorter_insert key x l) (x :: l).
Proof.
  induction l as [|y l IH]; simpl; [reflexivity|].
  destruct (text_le (key x) (key y)); [reflexivity|].
  rewrite IH. apply perm_swap.
Qed.

Lemma order_by_perm l : Permutation (order_by key l) l.
Proof.
  induction l as [|x l IH]; simpl; [constructor|].
  rewrite sorter_insert_perm. now constructor.
Qed.

Lemma order_by_length l : List.length (order_by key l) = List.length l.
Proof. apply Permutation_length, order_by_perm. Qed.

Lemma order_by_app_one l x :
  Permutation (order_by key (l ++ [x])) (x :: order_by key l).
Proof.
  rewrite !order_by_perm. symmetry. apply Permutation_cons_append.
Qed.
End SorterFacts.

(** An insert succeeds while rowids are left, and appends one row. *)
Lemma insert_expense_appends db d c a n :
  rowids_left db ->
  exists db' rowid,
    insert_expense db d c a n = Ok (db', rowid) /\
    expenses db' = (expenses db ++ [mkExpense rowid d c a n])%list /\
    ~ In rowid (map id (expenses db)).
Proof.
  intros H. destruct (new_rowid_some db H) as [rowid E].
  exists (mkDb (expenses db ++ [mkExpense rowid d c a n]) rowid (budget db)), rowid.
  split; [unfold insert_expense; now rewrite E|].
  split; [reflexivity|].
  intros I. apply in_map_iff in I. destruct I as [r [Er Ir]].
  destruct (new_rowid_above db rowid E) as [_ F].
  rewrite Forall_forall in F. specialize (F r Ir). lia.
Qed.

(** C6.  Every insert that the store accepts makes the listing one row
    longer, and the new row carries the date, category, amount and note
    that were given, under an identity no other row has. *)
Theorem insert_expense_adds_one (db : Db) (d c : string) (a : Q)
    (n : option string) :
  rowids_left db ->
  exists db' rowid,
    insert_expense db d c a n = Ok (db', rowid) /\
    let r := mkExpense rowid d c a n in
    expenses db' = (expenses db ++ [r])%list /\
    ~ In rowid (map id (expenses db)) /\
    List.length (view_all_expenses db') = S (List.length (view_all_expenses db)) /\
    Permutation (view_all_expenses db') (r :: view_all_expenses db).
Proof.
  intros H.
  destruct (insert_expense_appends db d c a n H) as [db' [rowid [E [Hx Hn]]]].
  exists db', rowid. split; [exact E|].
  cbv zeta. split; [exact Hx|]. split; [exact Hn|].
  unfold view_all_expenses, select_expenses. rewrite Hx. split.
  - rewrite !order_by_length, length_app. simpl. lia.
  - apply order_by_app_one.
Qed.

Lemma insert_expense_adds_one_witness :
  rowids_left empty_db /\
  exists db' rowid,
    insert_expense empty_db "2025-12-05" "Food" 150 (Some "lunch") = Ok (db', rowid) /\
    List.length (view_all_expenses db') = 1%nat.
Proof.
  assert (H : rowids_left empty_db) by (split; [reflexivity|constructor]).
  split; [exact H|].
  destruct (insert_expense_adds_one empty_db "2025-12-05" "Food" 150 (Some "lunch") H)
    as [db' [rowid [E [_ [_ [L _]]]]]].
  exists db', rowid. split; [exact E|exact L].
Defined.

(** * Frame *)

(** C9.  Every operation writes one table only: setting a budget leaves
    the expenses and their rowid counter as they were, and adding or
    deleting an expense leaves the budget table as it was. *)
Theorem one_relation_per_call (w : World) (db : Db) (k d c : string) (a : Q)
    (n : option string) (i : Z) (date_input category_input note_input : string) :
  (expenses (upsert_budget db k a) = expenses db /\
   sqlite_sequence (upsert_budget db k a) = sqlite_sequence db) /\
  (expenses (set_monthly_budget w db a) = expenses db /\
   sqlite_sequence (set_monthly_budget w db a) = sqlite_sequence db) /\
  match insert_expense db d c a n with
  | Ok (db', _) => budget db' = budget db
  | Raise _ => True
  end /\
  match add_expense w db date_input category_input a note_input with
  | Ok db' => budget db' = budget db
  | Raise _ => True
  end /\
  budget (fst (delete_from_expenses db i)) = budget db /\
  match delete_expense db i with
  | Ok (db', _) => budget db' = budget db
  | Raise _ => True
  end.
Proof.
  split; [split; reflexivity|]. split; [split; reflexivity|].
  split; [|split; [|split]].
  - unfold insert_expense. now destruct (new_rowid db).
  - unfold add_expense, insert_expense. now destruct (new_rowid db).
  - reflexivity.
  - unfold delete_expense. now destruct (fits_int64 i).
Qed.

(** * Identities *)

Lemma step_sequence_mono db o : sqlite_sequence db <= sqlite_sequence (step db o).
Proof.
  destruct o as [d c a n|i|k a]; simpl.
  - destruct (insert_expense db d c a n) as [[db' rowid]|] eqn:E; [|lia].
    apply insert_expense_ok in E. destruct E as [E ->]. simpl.
    apply new_rowid_above in E. lia.
  - unfold delete_expense. destruct (fits_int64 i); simpl; lia.
  - lia.
Qed.

Lemma step_covers db o : sequence_covers db -> sequence_covers (step db o).
Proof.
  unfold sequence_covers. intros H.
  destruct o as [d c a n|i|k a]; simpl.
  - destruct (insert_expense db d c a n) as [[db' rowid]|] eqn:E; [|assumption].
    apply insert_expense_ok in E. destruct E as [E ->]. simpl.
    apply new_rowid_above in E. destruct E as [_ F].
    apply Forall_app. split.
    + eapply Forall_impl; [|exact F]. simpl. intros; lia.
    + constructor; [simpl; lia|constructor].
  - unfold delete_expense. destruct (fits_int64 i); simpl; [|assumption].
    rewrite Forall_forall in *. intros r I. apply filter_In in I. now apply H.
  - assumption.
Qed.

Lemma run_covers ops : forall db, sequence_covers db -> sequence_covers (run db ops).
Proof.
  induction ops as [|o ops IH]; intros db H; simpl; [assumption|].
  apply IH. now apply step_covers.
Qed.

Lemma reachable_covers ops : sequence_covers (run empty_db ops).
Proof. apply run_covers. constructor. Qed.

Lemma assigned_above db o :
  Forall (fun i => sqlite_sequence db < i /\ i <= sqlite_sequence (step db o))
         (assigned db o).
Proof.
  destruct o as [d c a n|i|k a]; simpl; try constructor.
  destruct (insert_expense db d c a n) as [[db' rowid]|] eqn:E; constructor;
    [|constructor].
  apply insert_expense_ok in E. destruct E as [E ->]. simpl.
  apply new_rowid_above in E. lia.
Qed.

Lemma assigned_ids_above ops : forall db,
  Forall (fun i => sqlite_sequence db < i) (assigned_ids db ops).
Proof.
  induction ops as [|o ops IH]; intros db; simpl; [constructor|].
  apply Forall_app. split.
  - eapply Forall_impl; [|apply assigned_above]. simpl. intros; lia.
  - eapply Forall_impl; [|apply IH]. simpl. intros i Hi.
    pose proof (step_sequence_mono db o). lia.
Qed.

Lemma assigned_ids_sorted ops : forall db,
  StronglySorted Z.lt (assigned_ids db ops).
Proof.
  induction ops as [|o ops IH]; intros db; simpl; [constructor|].
  pose proof (assigned_above db o) as Ha.
  pose proof (assigned_ids_above ops (step db o)) as Hb.
  specialize (IH (step db o)).
  destruct (assigned db o) as [|i [|j l]] eqn:E; simpl.
  - assumption.
  - constructor; [assumption|].
    inversion Ha; subst. eapply Forall_impl; [|exact Hb]. simpl. intros; lia.
  - exfalso. destruct o; simpl in E; try discriminate.
    destruct (insert_expense _ _ _ _ _) as [[? ?]|]; discriminate.
Qed.

Lemma sorted_lt_nodup l : StronglySorted Z.lt l -> NoDup l.
Proof.
  induction 1 as [|x l Hs IH Hf]; constructor; [|assumption].
  intros I. rewrite Forall_forall in Hf. specialize (Hf x I). lia.
Qed.

Lemma filter_ids_incl (f : Expense -> bool) l i :
  In i (map id (filter f l)) -> In i (map id l).
Proof.
  rewrite !in_map_iff. intros [r [E I]]. apply filter_In in I. exists r. tauto.
Qed.

Lemma filter_ids_nodup (f : Expense -> bool) l :
  NoDup (map id l) -> NoDup (map id (filter f l)).
Proof.
  induction l as [|r l IH]; simpl; intros H; [constructor|].
  inversion H; subst. destruct (f r); simpl; [|auto].
  constructor; [|auto]. intros I. now apply filter_ids_incl in I.
Qed.

Lemma step_unique db o : unique_ids db -> unique_ids (step db o).
Proof.
  unfold unique_ids. intros H.
  destruct o as [d c a n|i|k a]; simpl.
  - destruct (insert_expense db d c a n) as [[db' rowid]|] eqn:E; [|assumption].
    apply insert_expense_ok in E. destruct E as [E ->]. simpl.
    apply new_rowid_above in E. destruct E as [_ F].
    rewrite map_app. simpl.
    apply NoDup_rev in H. rewrite <- rev_involutive. apply NoDup_rev.
    rewrite rev_app_distr. simpl. constructor; [|assumption].
    rewrite <- in_rev. intros I. apply in_map_iff in I. destruct I as [r [Er Ir]].
    rewrite Forall_forall in F. specialize (F r Ir). lia.
  - unfold delete_expense. destruct (fits_int64 i); simpl; [|assumption].
    now apply filter_ids_nodup.
  - assumption.
Qed.

Lemma run_unique ops : forall db, unique_ids db -> unique_ids (run db ops).
Proof.
  induction ops as [|o ops IH]; intros db H; simpl; [assumption|].
  apply IH. now apply step_unique.
Qed.

(** C8.  Along every sequence of operations the identities handed out
    are strictly increasing, hence distinct, and larger than every identity
    already in the table; no identity is handed out twice, whether or not
    its row has been deleted in between, and the rows of the table keep
    distinct identities. *)
Theorem ids_increase_and_are_never_reused (db : Db) (ops : list op) :
  sequence_covers db ->
  unique_ids db ->
  let ids := assigned_ids db ops in
  StronglySorted Z.lt ids /\
  NoDup ids /\
  Forall (fun i => Forall (fun r => id r < i) (expenses db)) ids /\
  unique_ids (run db ops).
Proof.
  intros Hc Hu ids.
  assert (Hs : StronglySorted Z.lt ids) by apply assigned_ids_sorted.
  split; [exact Hs|]. split; [now apply sorted_lt_nodup|]. split.
  - eapply Forall_impl; [|apply assigned_ids_above].
    simpl. intros i Hi. eapply Forall_impl; [|exact Hc]. simpl. intros; lia.
  - now apply run_unique.
Qed.

Lemma ids_increase_and_are_never_reused_witness :
  sequence_covers empty_db /\ unique_ids empty_db /\
  assigned_ids empty_db
    [OpAdd "2025-12-05" "Food" 150 None; OpAdd "2025-12-06" "Travel" 20 None;
     OpDelete 2; OpAdd "2025-12-07" "Fees" 5 None] = [1; 2; 3] /\
  StronglySorted Z.lt [1; 2; 3].
Proof.
  assert (Hc : sequence_covers empty_db) by constructor.
  assert (Hu : unique_ids empty_db) by constructor.
  split; [exact Hc|]. split; [exact Hu|]. split; [reflexivity|].
  exact (proj1 (ids_increase_and_are_never_reused empty_db
    [OpAdd "2025-12-05" "Food" 150 None; OpAdd "2025-12-06" "Travel" 20 None;
     OpDelete 2; OpAdd "2025-12-07" "Fees" 5 None] Hc Hu)).
Defined.

(** * Deleting *)

Lemma filter_all_length {A} (f : A -> bool) l :
  (forall x, In x l -> f x = true) -> filter f l = l.
Proof.
  induction l as [|x l IH]; simpl; intros H; [reflexivity|].
  rewrite (H x) by now left. f_equal. apply IH. intros; apply H. now right.
Qed.

Lemma filter_one_out l : forall r,
  NoDup (map id l) -> In r l ->
  Permutation l (r :: filter (fun x => negb (id x =? id r)) l) /\
  List.length l = S (List.length (filter (fun x => negb (id x =? id r)) l)).
Proof.
  induction l as [|x l IH]; intros r Hn Hi; [contradiction|].
  inversion Hn as [|? ? Hx Hl]; subst. simpl.
  destruct Hi as [->|Hi].
  - rewrite Z.eqb_refl. simpl.
    rewrite filter_all_length; [split; reflexivity|].
    intros y Iy. destruct (Z.eqb_spec (id y) (id r)) as [E|]; [|reflexivity].
    exfalso. apply Hx. rewrite <- E. now apply in_map.
  - destruct (Z.eqb_spec (id x) (id r)) as [E|E]; simpl.
    + exfalso. apply Hx. rewrite E. now apply in_map.
    + destruct (IH r Hl Hi) as [P L]. split.
      * rewrite perm_swap. now constructor.
      * now rewrite L.
Qed.

(** X14.  For an id the binding accepts, [delete_expense] reports 1 and
    removes exactly the row of that id, keeping every other row, when such a
    row exists; it reports 0 and leaves the database as it is when none
    does.  The budget table is untouched and the listing afterwards does not
    show the id. *)
Lemma delete_expense_in_range (db : Db) (expense_id : Z) :
  fits_int64 expense_id = true ->
  unique_ids db ->
  exists db' deleted_count,
    delete_expense db expense_id = Ok (db', deleted_count) /\
    budget db' = budget db /\
    ~ In expense_id (map id (view_all_expenses db')) /\
    (forall r, In r (expenses db) -> id r = expense_id ->
       deleted_count = 1 /\
       Permutation (expenses db) (r :: expenses db') /\
       (forall r', In r' (expenses db') <-> In r' (expenses db) /\ r' <> r)) /\
    (~ In expense_id (map id (expenses db)) -> deleted_count = 0 /\ db' = db).
Proof.
  intros Hf Hu. unfold delete_expense. rewrite Hf.
  eexists _, _. split; [reflexivity|]. unfold delete_from_expenses. simpl.
  split; [reflexivity|]. split; [|split].
  - intros I. apply in_map_iff in I. destruct I as [r [E I]].
    apply (Permutation_in _ (order_by_perm date _)) in I.
    apply filter_In in I. destruct I as [_ I]. rewrite E, Z.eqb_refl in I.
    discriminate.
  - intros r Ir Er. subst expense_id.
    destruct (filter_one_out (expenses db) r Hu Ir) as [P L].
    split; [rewrite L; lia|]. split; [exact P|].
    intros r'. rewrite filter_In. split.
    + intros [I N]. split; [assumption|]. intros ->. rewrite Z.eqb_refl in N.
      discriminate.
    + intros [I N]. split; [assumption|].
      destruct (Z.eqb_spec (id r') (id r)) as [E|]; [|reflexivity].
      exfalso. apply N.
      apply (Permutation_in _ P) in I. destruct I as [I|I]; [now symmetry|].
      apply filter_In in I. destruct I as [_ I]. rewrite E, Z.eqb_refl in I.
      discriminate.
  - intros N.
    assert (E : filter (fun r => negb (id r =? expense_id)) (expenses db) = expenses db).
    { apply filter_all_length. intros x Ix.
      destruct (Z.eqb_spec (id x) expense_id) as [E|]; [|reflexivity].
      exfalso. apply N. rewrite <- E. now apply in_map. }
    rewrite E. split; [lia|]. now destruct db.
Qed.

(** X15.  Once a row is deleted its identity stays out of the listing,
    whatever is added, deleted or budgeted afterwards. *)
Lemma deleted_id_stays_out (db : Db) (expense_id : Z) (ops : list op) :
  sequence_covers db ->
  In expense_id (map id (expenses db)) ->
  ~ In expense_id
      (map id (view_all_expenses (run (fst (delete_from_expenses db expense_id)) ops))).
Proof.
  intros Hc Hi.
  assert (Hle : expense_id <= sqlite_sequence db).
  { apply in_map_iff in Hi. destruct Hi as [r [E I]].
    unfold sequence_covers in Hc. rewrite Forall_forall in Hc.
    specialize (Hc r I). lia. }
  set (db0 := fst (delete_from_expenses db expense_id)).
  assert (H0 : expense_id <= sqlite_sequence db0 /\
               ~ In expense_id (map id (expenses db0))).
  { split; [exact Hle|]. unfold db0, delete_from_expenses. simpl.
    intros I. apply in_map_iff in I. destruct I as [r [E I]].
    apply filter_In in I. destruct I as [_ I]. rewrite E, Z.eqb_refl in I.
    discriminate. }
  clearbody db0. clear Hc Hi Hle.
  revert db0 H0. induction ops as [|o ops IH]; intros db0 [H1 H2]; simpl.
  - intros I. apply H2. apply in_map_iff in I. destruct I as [r [E I]].
    apply (Permutation_in _ (order_by_perm date _)) in I.
    apply in_map_iff. eauto.
  - apply IH. split.
    + pose proof (step_sequence_mono db0 o). lia.
    + destruct o as [d c a n|i|k a]; simpl.
      * destruct (insert_expense db0 d c a n) as [[db' rowid]|] eqn:E; [|assumption].
        apply insert_expense_ok in E. destruct E as [E ->]. simpl.
        apply new_rowid_above in E. rewrite map_app, in_app_iff. simpl.
        intros [I|[I|[]]]; [now apply H2|lia].
      * unfold delete_expense. destruct (fits_int64 i); simpl; [|assumption].
        intros I. apply H2. now apply filter_ids_incl in I.
      * assumption.
Qed.

(** C4.  Deleting by an id that names no row is meant to report a count of
    0 and to leave the table alone, for every integer.  For an integer
    outside the signed 64-bit range the statement is never run: the binding
    raises [OverflowError], which [delete_expense] does not catch.
    ([delete_expense_in_range] and [deleted_id_stays_out] cover the integers
    the binding accepts.) *)
Theorem delete_expense_overflow :
  delete_expense empty_db 9223372036854775808 = Raise OverflowError /\
  ~ In 9223372036854775808 (map id (expenses empty_db)).
Proof. split; [reflexivity|]. simpl. tauto. Qed.

(** * Text order *)

Lemma code_inj x y : Sqlite.code x = Sqlite.code y -> x = y.
Proof.
  unfold Sqlite.code. intros H. apply N2Z.inj in H.
  rewrite <- (ascii_N_embedding x), <- (ascii_N_embedding y). now f_equal.
Qed.

Lemma text_le_lex a : forall b, text_le a b = true <-> lex_le a b.
Proof.
  unfold text_le.
  induction a as [|x a IH]; intros [|y b]; simpl.
  - split; [constructor|reflexivity].
  - split; [constructor|reflexivity].
  - split; [discriminate|]. intros H; inversion H.
  - destruct (Z.compare_spec (Sqlite.code x) (Sqlite.code y)) as [E|L|G].
    + apply code_inj in E. subst y. rewrite IH. split.
      * now constructor.
      * intros H. inversion H; subst; [lia|assumption].
    + split; [now constructor|reflexivity].
    + split; [discriminate|]. intros H. inversion H; subst; lia.
Qed.

Lemma text_le_total a : forall b, text_le a b = false -> text_le b a = true.
Proof.
  unfold text_le.
  induction a as [|x a IH]; intros [|y b]; simpl; try discriminate; try reflexivity.
  rewrite (Z.compare_antisym (Sqlite.code x) (Sqlite.code y)).
  destruct (Sqlite.code x ?= Sqlite.code y); simpl; try discriminate; auto.
Qed.

Lemma lex_le_refl a : lex_le a a.
Proof. induction a; now constructor. Qed.

Lemma lex_le_trans a b c : lex_le a b -> lex_le b c -> lex_le a c.
Proof.
  intros H. revert c. induction H as [b|x a y b L|x a b H IH]; intros c Hc.
  - constructor.
  - inversion Hc; subst; constructor; lia.
  - inversion Hc; subst; [now constructor|]. apply lex_le_eq. now apply IH.
Qed.

Lemma lex_le_antisym a b : lex_le a b -> lex_le b a -> a = b.
Proof.
  induction 1 as [b|x a y b L|x a b H IH]; intros Hb.
  - now inversion Hb.
  - inversion Hb; subst; lia.
  - inversion Hb; subst; [lia|]. f_equal. now apply IH.
Qed.

(** * The sorter sorts *)

Section SorterSorted.
Context {A : Type} (key : A -> string).

Lemma sorter_insert_hd x a l :
  key_le key a x -> HdRel (key_le key) a l -> HdRel (key_le key) a (sorter_insert key x l).
Proof.
  intros Hax Hl. destruct l as [|y l]; simpl; [now constructor|].
  destruct (text_le (key x) (key y)); constructor; [assumption|].
  now inversion Hl.
Qed.

Lemma sorter_insert_sorted x l :
  Sorted (key_le key) l -> Sorted (key_le key) (sorter_insert key x l).
Proof.
  induction 1 as [|y l Hs IH Hh]; simpl; [repeat constructor|].
  destruct (text_le (key x) (key y)) eqn:E.
  - constructor; [now constructor|]. constructor. now apply text_le_lex.
  - constructor; [assumption|]. apply sorter_insert_hd; [|assumption].
    apply text_le_lex. now apply text_le_total.
Qed.

Lemma order_by_sorted l : Sorted (key_le key) (order_by key l).
Proof.
  induction l as [|x l IH]; simpl; [constructor|].
  now apply sorter_insert_sorted.
Qed.

Lemma order_by_strongly_sorted l : StronglySorted (key_le key) (order_by key l).
Proof.
  apply Sorted_StronglySorted; [|apply order_by_sorted].
  intros x y z. apply lex_le_trans.
Qed.
End SorterSorted.

(** C5.  The listing holds exactly the stored rows, in ascending
    lexicographic order of their dates, and is empty when the table is. *)
Theorem view_all_expenses_sorted (db : Db) :
  let rows := view_all_expenses db in
  Permutation rows (expenses db) /\
  StronglySorted (key_le date) rows /\
  (forall r, In r rows <-> In r (expenses db)) /\
  (expenses db = [] -> rows = []).
Proof.
  cbv zeta. unfold view_all_expenses, select_expenses.
  split; [apply order_by_perm|]. split; [apply order_by_strongly_sorted|].
  split.
  - intros r. split; apply Permutation_in;
      [apply order_by_perm|symmetry; apply order_by_perm].
  - now intros ->.
Qed.

(** * Sums *)

Lemma fold_sumStep l : forall p,
  (rSum (fold_left sumStep l p) == rSum p + total l)%Q /\
  cnt (fold_left sumStep l p) = cnt p + Z.of_nat (List.length l).
Proof.
  induction l as [|v l IH]; intros p; simpl.
  - split; [ring|lia].
  - destruct (IH (sumStep p v)) as [H1 H2]. split.
    + rewrite H1. simpl. ring.
    + rewrite H2. simpl. lia.
Qed.

Lemma sql_sum_nil : sql_sum [] = None.
Proof. reflexivity. Qed.

Lemma sql_sum_cons v l : exists s, sql_sum (v :: l) = Some s /\ (s == total (v :: l))%Q.
Proof.
  unfold sql_sum, sumFinalize.
  destruct (fold_sumStep (v :: l) sumInit) as [H1 H2].
  rewrite H2. simpl cnt.
  change (List.length (v :: l)) with (S (List.length l)).
  destruct (Z.ltb_spec 0 (0 + Z.of_nat (S (List.length l)))); [|lia].
  eexists. split; [reflexivity|]. rewrite H1. simpl. ring.
Qed.

Lemma total_perm l l' : Permutation l l' -> (total l == total l')%Q.
Proof.
  induction 1; simpl.
  - reflexivity.
  - now rewrite IHPermutation.
  - ring.
  - now rewrite IHPermutation1.
Qed.

Lemma filter_perm {A} (f : A -> bool) l l' :
  Permutation l l' -> Permutation (filter f l) (filter f l').
Proof.
  induction 1; simpl.
  - constructor.
  - destruct (f x); [now constructor|assumption].
  - destruct (f x), (f y); try reflexivity. apply perm_swap.
  - now transitivity (filter f l').
Qed.

(** The total of a month is the sum over the rows the WHERE clause keeps. *)
Lemma sum_expenses_for_month_where e now db month_key :
  (sum_expenses_for_month e now db month_key
   == total (map amount (filter (in_month e now month_key) (expenses db))))%Q.
Proof.
  unfold sum_expenses_for_month, select_sum_amount.
  destruct (map amount (filter (in_month e now month_key) (expenses db))) as [|v l].
  - reflexivity.
  - destruct (sql_sum_cons v l) as [s [E H]]. now rewrite E.
Qed.

Lemma sum_expenses_for_month_none e now db month_key :
  filter (in_month e now month_key) (expenses db) = [] ->
  sum_expenses_for_month e now db month_key = 0%Q.
Proof.
  unfold sum_expenses_for_month, select_sum_amount. now intros ->.
Qed.

(** * GROUP BY *)

Lemma group_runs_keys rows : forall cur p c,
  In c (map fst (group_runs cur p rows)) <-> c = cur \/ In c (map fst rows).
Proof.
  induction rows as [|[c0 v0] rows IH]; intros cur p c; simpl.
  - intuition congruence.
  - destruct (String.eqb_spec c0 cur) as [E|E]; simpl.
    + rewrite IH. subst. intuition.
    + rewrite IH. intuition.
Qed.

Lemma above_run cur c0 rows :
  lex_le cur c0 -> c0 <> cur ->
  Forall (fun r => lex_le c0 (fst r)) rows ->
  ~ In cur (map fst rows) /\ filter (same_key cur) rows = [].
Proof.
  intros H1 H2 F. induction F as [|[c v] rows Hc F IH]; simpl; [tauto|].
  destruct IH as [IH1 IH2]. simpl in Hc.
  assert (N : c <> cur).
  { intros ->. apply H2. now apply lex_le_antisym. }
  split; [tauto|]. unfold same_key at 1. simpl.
  destruct (String.eqb_spec c cur); [contradiction|assumption].
Qed.

Lemma group_runs_nodup rows : forall cur p,
  StronglySorted (key_le fst) rows -> Forall (fun r => lex_le cur (fst r)) rows ->
  NoDup (map fst (group_runs cur p rows)).
Proof.
  induction rows as [|[c0 v0] rows IH]; intros cur p Hs Hf; simpl.
  - constructor; [tauto|constructor].
  - inversion Hs as [|? ? Hs' Hall]; subst.
    inversion Hf as [|? ? Hc Hf']; subst. simpl in Hc.
    destruct (String.eqb_spec c0 cur) as [E|E]; simpl.
    + now apply IH.
    + constructor; [|now apply IH].
      rewrite group_runs_keys. intros [->|I]; [congruence|].
      now apply (above_run cur c0 rows Hc E Hall).
Qed.

Lemma group_runs_sums rows : forall cur p c v,
  StronglySorted (key_le fst) rows -> Forall (fun r => lex_le cur (fst r)) rows ->
  0 < cnt p ->
  In (c, v) (group_runs cur p rows) ->
  exists s, v = Some s /\
    (s == (if String.eqb c cur then rSum p else 0)
          + total (map snd (filter (same_key c) rows)))%Q.
Proof.
  induction rows as [|[c0 v0] rows IH]; intros cur p c v Hs Hf Hp; simpl.
  - intros [[= <- <-]|[]]. unfold sumFinalize.
    destruct (Z.ltb_spec 0 (cnt p)); [|lia].
    eexists. split; [reflexivity|]. rewrite String.eqb_refl. ring.
  - inversion Hs as [|? ? Hs' Hall]; subst.
    inversion Hf as [|? ? Hc Hf']; subst. simpl in Hc.
    unfold same_key at 1. simpl.
    destruct (String.eqb_spec c0 cur) as [E|E]; simpl.
    + subst c0. intros I.
      destruct (IH cur (sumStep p v0) c v Hs' Hf') as [s [Ev Hsum]];
        [simpl; lia|assumption|].
      exists s. split; [assumption|]. rewrite Hsum.
      rewrite (String.eqb_sym cur c).
      destruct (String.eqb c cur); simpl; ring.
    + destruct (above_run cur c0 rows Hc E Hall) as [Hn He].
      intros [[= <- <-]|I].
      * unfold sumFinalize. destruct (Z.ltb_spec 0 (cnt p)); [|lia].
        eexists. split; [reflexivity|].
        rewrite String.eqb_refl.
        destruct (String.eqb_spec c0 cur); [contradiction|].
        rewrite He. simpl. ring.
      * assert (Nc : c <> cur).
        { intros ->. apply (in_map fst) in I. simpl in I.
          apply group_runs_keys in I. destruct I as [I|I]; [congruence|tauto]. }
        destruct (IH c0 (sumStep sumInit v0) c v Hs' Hall) as [s [Ev Hsum]];
          [simpl; lia|assumption|].
        exists s. split; [assumption|]. rewrite Hsum.
        destruct (String.eqb_spec c cur); [contradiction|].
        rewrite (String.eqb_sym c0 c).
        destruct (String.eqb c c0); simpl; ring.
Qed.

Lemma group_by_sum_spec (rows : list (string * Q)) (c : string) :
  let out := group_by_sum rows in
  NoDup (map fst out) /\
  (In c (map fst out) <-> In c (map fst rows)) /\
  (forall v, In (c, v) out ->
     exists s, v = Some s /\ (s == total (map snd (filter (same_key c) rows)))%Q).
Proof.
  cbv zeta. unfold group_by_sum.
  pose proof (order_by_perm fst rows) as P.
  pose proof (order_by_strongly_sorted fst rows) as S.
  destruct (order_by fst rows) as [|[c0 v0] rest] eqn:E.
  - apply Permutation_nil in P. subst rows. simpl.
    split; [constructor|]. split; [tauto|]. intros v [].
  - inversion S as [|? ? Hs Hall]; subst. simpl in Hall.
    assert (Pk : forall k, In k (map fst rows) <-> k = c0 \/ In k (map fst rest)).
    { intros k. split; intros I.
      - apply (Permutation_in _ (Permutation_map fst (Permutation_sym P))) in I.
        simpl in I. intuition.
      - apply (Permutation_in _ (Permutation_map fst P)). simpl. intuition. }
    split; [now apply group_runs_nodup|]. split.
    + rewrite group_runs_keys, Pk. tauto.
    + intros v I.
      destruct (group_runs_sums rest c0 (sumStep sumInit v0) c v Hs Hall) as [s [Ev Hsum]];
        [simpl; lia|assumption|].
      exists s. split; [assumption|]. rewrite Hsum.
      rewrite <- (total_perm _ _ (Permutation_map snd (filter_perm (same_key c) _ _ P))).
      simpl. unfold same_key at 2. simpl. rewrite (String.eqb_sym c0 c).
      destruct (String.eqb c c0); simpl; ring.
Qed.

Lemma in_month_iso e now month_key r :
  is_iso_date (date r) ->
  in_month e now month_key r = String.eqb (date_prefix r) month_key.
Proof.
  intros H. unfold in_month, date_prefix. now rewrite CalendarFacts.strftime_Ym_iso.
Qed.

Lemma filter_ext_Forall {A} (f g : A -> bool) (P : A -> Prop) l :
  (forall x, P x -> f x = g x) -> Forall P l -> filter f l = filter g l.
Proof.
  intros H F. induction F as [|x l Hx F IH]; simpl; [reflexivity|].
  now rewrite (H x Hx), IH.
Qed.

(** On calendar dates the WHERE clause keeps what a prefix test keeps. *)
Lemma in_month_is_prefix e now db month_key :
  Forall (fun r => is_iso_date (date r)) (expenses db) ->
  filter (in_month e now month_key) (expenses db) = prefix_matches db month_key.
Proof.
  intros F. unfold prefix_matches. eapply filter_ext_Forall; [|exact F].
  intros r Hr. now apply in_month_iso.
Qed.

(** C1, as amended.  When every stored date is a calendar date written
    [YYYY-MM-DD], the rows the monthly total is taken over are exactly the
    expenses whose date begins with the month key, in the order of the
    table; the total is the SUM of their amounts, and it is 0, not NULL,
    when there is none. *)
Theorem sum_expenses_for_month_iso (e : Sqlite.engine) (now : Z) (db : Db)
    (month_key : string) :
  Forall (fun r => is_iso_date (date r)) (expenses db) ->
  filter (in_month e now month_key) (expenses db) = prefix_matches db month_key /\
  select_sum_amount e now db month_key
  = sql_sum (map amount (prefix_matches db month_key)) /\
  sum_expenses_for_month e now db month_key
  = match sql_sum (map amount (prefix_matches db month_key)) with
    | Some t => t
    | None => 0%Q
    end /\
  (prefix_matches db month_key = [] ->
   select_sum_amount e now db month_key = None /\
   sum_expenses_for_month e now db month_key = 0%Q).
Proof.
  intros F. pose proof (in_month_is_prefix e now db month_key F) as E.
  unfold sum_expenses_for_month, select_sum_amount. rewrite E.
  split; [reflexivity|]. split; [reflexivity|]. split; [reflexivity|].
  intros N. now rewrite N.
Qed.

(** C1 does not hold as stated: the date [2025-12-5] begins with [2025-12], yet
    the engine cannot read it and the expense is missing from the total of
    December 2025. *)
Lemma sum_by_prefix_counterexample :
  map date_prefix (expenses db_unpadded_day) = ["2025-12"] /\
  sum_expenses_for_month Sqlite.legacy_engine noon_2025_12_05 db_unpadded_day "2025-12" = 0%Q /\
  sum_expenses_for_month Sqlite.current_engine noon_2025_12_05 db_unpadded_day "2025-12" = 0%Q /\
  ~ (sum_expenses_for_month Sqlite.legacy_engine noon_2025_12_05 db_unpadded_day "2025-12"
     == total (map amount (prefix_matches db_unpadded_day "2025-12")))%Q /\
  ~ (sum_expenses_for_month Sqlite.current_engine noon_2025_12_05 db_unpadded_day "2025-12"
     == total (map amount (prefix_matches db_unpadded_day "2025-12")))%Q.
Proof.
  split; [reflexivity|]. split; [reflexivity|]. split; [reflexivity|].
  split; intros H; vm_compute in H; discriminate H.
Qed.

Lemma db_december_iso : Forall (fun r => is_iso_date (date r)) (expenses db_december).
Proof.
  repeat constructor; simpl.
  - exists 2025, 12, 5. repeat split; try lia; vm_compute; congruence.
  - exists 2025, 12, 9. repeat split; try lia; vm_compute; congruence.
  - exists 2025, 11, 30. repeat split; try lia; vm_compute; congruence.
  - exists 2025, 12, 31. repeat split; try lia; vm_compute; congruence.
Defined.

Lemma sum_expenses_for_month_iso_witness :
  Forall (fun r => is_iso_date (date r)) (expenses db_december) /\
  map id (filter (in_month Sqlite.current_engine noon_2025_12_05 "2025-12")
                 (expenses db_december))
  = map id (prefix_matches db_december "2025-12") /\
  sum_expenses_for_month Sqlite.current_engine noon_2025_12_05 db_december "2025-12"
  = match sql_sum (map amount (prefix_matches db_december "2025-12")) with
    | Some t => t
    | None => 0%Q
    end.
Proof.
  pose proof (sum_expenses_for_month_iso Sqlite.current_engine noon_2025_12_05
                db_december "2025-12" db_december_iso) as H.
  split; [exact db_december_iso|]. split.
  - exact (f_equal (map id) (proj1 H)).
  - exact (proj1 (proj2 (proj2 H))).
Defined.

(** * Category summary *)

Lemma category_rows l c :
  map snd (filter (same_key c) (map (fun r => (category r, amount r)) l))
  = map amount (filter (fun r => String.eqb (category r) c) l).
Proof.
  induction l as [|r l IH]; simpl; [reflexivity|].
  unfold same_key at 1. simpl.
  destruct (String.eqb (category r) c); simpl; now rewrite IH.
Qed.

Lemma category_keys l c :
  In c (map fst (map (fun r => (category r, amount r)) l))
  <-> filter (fun r => String.eqb (category r) c) l <> [].
Proof.
  induction l as [|r l IH]; simpl; [tauto|].
  destruct (String.eqb_spec (category r) c) as [E|E].
  - split; [discriminate|]. now left.
  - rewrite <- IH. tauto.
Qed.

(** The SUM of a run is taken over the rows of its key, in the order the
    sorter hands them over. *)
Lemma group_runs_fold rows : forall cur p c v,
  StronglySorted (key_le fst) rows -> Forall (fun r => lex_le cur (fst r)) rows ->
  In (c, v) (group_runs cur p rows) ->
  v = sumFinalize (fold_left sumStep (map snd (filter (same_key c) rows))
                             (if String.eqb c cur then p else sumInit)).
Proof.
  induction rows as [|[c0 v0] rows IH]; intros cur p c v Hs Hf; simpl.
  - intros [[= <- <-]|[]]. now rewrite String.eqb_refl.
  - inversion Hs as [|? ? Hs' Hall]; subst.
    inversion Hf as [|? ? Hc Hf']; subst. simpl in Hc.
    unfold same_key at 1. simpl.
    destruct (String.eqb_spec c0 cur) as [E|E]; simpl.
    + subst c0. intros I. rewrite (IH cur (sumStep p v0) c v Hs' Hf' I).
      rewrite (String.eqb_sym cur c). now destruct (String.eqb c cur).
    + destruct (above_run cur c0 rows Hc E Hall) as [Hn He].
      intros [[= <- <-]|I].
      * rewrite String.eqb_refl.
        destruct (String.eqb_spec c0 cur); [contradiction|]. now rewrite He.
      * assert (Nc : c <> cur).
        { intros ->. apply (in_map fst) in I. simpl in I.
          apply group_runs_keys in I. destruct I as [I|I]; [congruence|tauto]. }
        rewrite (IH c0 (sumStep sumInit v0) c v Hs' Hall I).
        destruct (String.eqb_spec c cur); [contradiction|].
        rewrite (String.eqb_sym c0 c). now destruct (String.eqb c c0).
Qed.

Lemma group_by_sum_fold (rows : list (string * Q)) (c : string) (v : option Q) :
  In (c, v) (group_by_sum rows) ->
  exists l, Permutation l (map snd (filter (same_key c) rows)) /\ v = sql_sum l.
Proof.
  unfold group_by_sum. intros I.
  pose proof (order_by_perm fst rows) as P.
  pose proof (order_by_strongly_sorted fst rows) as S.
  exists (map snd (filter (same_key c) (order_by fst rows))).
  split; [apply Permutation_map, filter_perm, P|].
  destruct (order_by fst rows) as [|[c0 v0] rest]; [destruct I|].
  inversion S as [|? ? S' Hall]; subst.
  rewrite (group_runs_fold rest c0 (sumStep sumInit v0) c v S' Hall I).
  simpl. unfold same_key at 2. simpl. rewrite (String.eqb_sym c0 c).
  now destruct (String.eqb c c0).
Qed.

Lemma group_by_sum_nil (rows : list (string * Q)) :
  group_by_sum rows = [] <-> rows = [].
Proof.
  split.
  - intros H. destruct rows as [|[c v] rows]; [reflexivity|].
    assert (I : In c (map fst (group_by_sum ((c, v) :: rows)))).
    { apply (group_by_sum_spec ((c, v) :: rows) c). now left. }
    rewrite H in I. destruct I.
  - now intros ->.
Qed.

(** The category summary has one row per category that occurs among the
    rows the WHERE clause keeps, with the SUM of their amounts. *)
Lemma category_summary_where (e : Sqlite.engine) (now : Z) (db : Db)
    (month_key c : string) :
  let rows := select_category_sums e now db month_key in
  let mine := filter (fun r => String.eqb (category r) c)
                     (filter (in_month e now month_key) (expenses db)) in
  NoDup (map fst rows) /\
  (In c (map fst rows) <-> mine <> []) /\
  (forall v, In (c, v) rows ->
     exists l, Permutation l (map amount mine) /\ v = sql_sum l).
Proof.
  cbv zeta. unfold select_category_sums.
  set (l := filter (in_month e now month_key) (expenses db)).
  destruct (group_by_sum_spec (map (fun r => (category r, amount r)) l) c)
    as [Hn [Hk _]].
  rewrite category_keys in Hk.
  split; [exact Hn|]. split; [exact Hk|].
  intros v I. rewrite <- category_rows. now apply group_by_sum_fold.
Qed.

(** C7, as amended.  When every stored date is a calendar date written
    [YYYY-MM-DD], the category summary of a month has one row per category;
    a category has a row exactly when some expense of that category has a
    date that begins with the month key, and the row carries the SUM of
    the amounts of exactly those expenses, added in some order. *)
Theorem category_summary_iso (e : Sqlite.engine) (now : Z) (db : Db)
    (month_key c : string) :
  Forall (fun r => is_iso_date (date r)) (expenses db) ->
  let rows := select_category_sums e now db month_key in
  let mine := filter (fun r => String.eqb (category r) c)
                     (prefix_matches db month_key) in
  NoDup (map fst rows) /\
  (mine <> [] -> In c (map fst rows)) /\
  (forall v, In (c, v) rows ->
     mine <> [] /\
     exists l, Permutation l (map amount mine) /\ v = sql_sum l) /\
  (mine = [] -> ~ In c (map fst rows)).
Proof.
  intros F.
  rewrite <- (in_month_is_prefix e now db month_key F).
  destruct (category_summary_where e now db month_key c) as [Hn [Hk Hv]].
  cbv zeta. split; [exact Hn|]. split; [apply Hk|]. split.
  - intros v I. split; [|now apply Hv].
    apply Hk. apply in_map_iff. now exists (c, v).
  - intros E I. now apply Hk in I.
Qed.

Lemma category_summary_iso_witness :
  Forall (fun r => is_iso_date (date r)) (expenses db_december) /\
  select_category_sums Sqlite.current_engine noon_2025_12_05 db_december "2025-12"
  = [("Food", Some 50%Q); ("Travel", Some (0 + 100 + 200)%Q)] /\
  NoDup (map fst (select_category_sums Sqlite.current_engine noon_2025_12_05
                    db_december "2025-12")) /\
  ~ In "Fees" (map fst (select_category_sums Sqlite.current_engine noon_2025_12_05
                          db_december "2025-12")).
Proof.
  pose proof (category_summary_iso Sqlite.current_engine noon_2025_12_05
                db_december "2025-12" "Fees" db_december_iso) as H.
  cbv zeta in H. destruct H as [H1 [_ [_ H4]]].
  split; [exact db_december_iso|].
  split; [vm_compute; reflexivity|]. split; [exact H1|].
  apply H4. reflexivity.
Defined.

(** C7 does not hold as stated: the Food expense dated [2025-12-5] begins with
    [2025-12], yet the summary of December 2025 has no row at all. *)
Lemma category_by_prefix_counterexample :
  filter (fun r => String.eqb (category r) "Food")
         (prefix_matches db_unpadded_day "2025-12")
  = expenses db_unpadded_day /\
  select_category_sums Sqlite.legacy_engine noon_2025_12_05 db_unpadded_day "2025-12"
  = [] /\
  select_category_sums Sqlite.current_engine noon_2025_12_05 db_unpadded_day "2025-12"
  = [].
Proof. repeat split. Qed.

(** * Dates the parser cannot read *)



Lemma iso_date_length s : is_iso_date s -> String.length s = 10%nat.
Proof.
  intros [y [mo [d [Hy [_ [_ ->]]]]]]. now rewrite CalendarFacts.iso_date_chars by lia.
Qed.

Lemma add_expense_ok w db di ci a ni db' :
  add_expense w db di ci a ni = Ok db' ->
  exists rowid,
    expenses db' =
    (expenses db ++
     [mkExpense rowid
        (if String.eqb (Py.strip di) "" then Py.strftime_Ymd (local_now w)
         else Py.strip di)
        (Py.strip ci) a (Some (Py.strip ni))])%list /\
    sqlite_sequence db' = rowid /\ budget db' = budget db /\
    new_rowid db = Some rowid.
Proof.
  unfold add_expense.
  destruct (insert_expense db _ _ a _) as [[db1 rowid]|] eqn:E; [|discriminate].
  intros [= <-]. apply insert_expense_ok in E. destruct E as [E ->].
  exists rowid. simpl. auto.
Qed.









(** The first scenario of the specification. *)
Example december_scenario :
  let w := a_world Sqlite.current_engine in
  exists db1,
    add_expense w empty_db "2025-12-05" "Food" 150 "lunch" = Ok db1 /\
    let db2 := upsert_budget db1 "2025-12" 1000 in
    view_month_summary w db2
    = ((0 + 150)%Q, Some 1000%Q, WithinBudget (1000 - (0 + 150))%Q).
Proof.
  eexists. split; [reflexivity|]. vm_compute. reflexivity.
Qed.

(* ================================================================== *)
(** * Further properties of the program *)
(* ================================================================== *)

(** * Budgets: what is set is what is read *)

Lemma find_upsert rows k a :
  find (fun r => String.eqb (month r) k) (upsert rows k a) = Some (mkBudget k a).
Proof.
  induction rows as [|r rows IH]; simpl.
  - now rewrite String.eqb_refl.
  - destruct (String.eqb_spec (month r) k) as [E|E]; simpl.
    + rewrite E, String.eqb_refl. reflexivity.
    + destruct (String.eqb_spec (month r) k); [contradiction|assumption].
Qed.

Lemma find_upsert_other rows k a k' :
  k' <> k ->
  find (fun r => String.eqb (month r) k') (upsert rows k a)
  = find (fun r => String.eqb (month r) k') rows.
Proof.
  intros N. induction rows as [|r rows IH]; simpl.
  - destruct (String.eqb_spec k k'); [congruence|reflexivity].
  - destruct (String.eqb_spec (month r) k) as [E|E]; simpl.
    + destruct (String.eqb_spec (month r) k'); [congruence|reflexivity].
    + now rewrite IH.
Qed.

(** X1.  The budget just set is the budget the summary reads back, whatever
    the table held before; the budgets of all other months and the total of
    the month are as they were. *)
Theorem set_monthly_budget_then_summary (w : World) (db : Db) (a : Q)
    (other : string) :
  let db' := set_monthly_budget w db a in
  get_budget db' (get_current_month_key w) = Some a /\
  (other <> get_current_month_key w -> get_budget db' other = get_budget db other) /\
  view_month_summary w db'
  = (fst (fst (view_month_summary w db)), Some a,
     evaluate (fst (fst (view_month_summary w db))) (Some a)).
Proof.
  cbv zeta.
  assert (G : get_budget (set_monthly_budget w db a) (get_current_month_key w) = Some a).
  { unfold get_budget, select_budget, set_monthly_budget, upsert_budget. simpl.
    now rewrite find_upsert. }
  split; [exact G|]. split.
  - intros N. unfold get_budget, select_budget, set_monthly_budget, upsert_budget.
    simpl. now rewrite find_upsert_other.
  - unfold view_month_summary. rewrite G. reflexivity.
Qed.

Lemma find_none_months rows k :
  find (fun r => String.eqb (month r) k) rows = None <-> ~ In k (map month rows).
Proof.
  induction rows as [|r rows IH]; simpl; [tauto|].
  destruct (String.eqb_spec (month r) k) as [E|E].
  - split; [discriminate|]. intros N. elim N. now left.
  - rewrite IH. tauto.
Qed.

(** X2.  The summary says that no budget is set exactly when the budget
    table has no row for the current month. *)
Theorem view_month_summary_unset (w : World) (db : Db) :
  snd (view_month_summary w db) = Unset
  <-> ~ In (get_current_month_key w) (map month (budget db)).
Proof.
  unfold view_month_summary. cbn [snd].
  rewrite <- find_none_months. unfold get_budget, select_budget.
  destruct (find _ (budget db)) as [r|]; simpl.
  - split; [|discriminate]. destruct (Qle_bool _ _); discriminate.
  - tauto.
Qed.

(** * The judgement, read backwards *)

(** X3.  A remainder is printed only with a budget that the total does
    not exceed, and it is never negative; an overage is printed only when
    the difference between budget and total fails the test [>= 0], and it
    is that difference negated. *)
Theorem evaluate_amounts (t : Q) (b : option Q) :
  match evaluate t b with
  | Unset => b = None
  | WithinBudget remaining =>
      exists x, b = Some x /\ remaining = (x - t)%Q /\
                (0 <= remaining)%Q /\ (t <= x)%Q
  | Exceeded overage =>
      exists x, b = Some x /\ overage = (- (x - t))%Q /\
                ~ (0 <= x - t)%Q
  end.
Proof.
  destruct b as [x|]; simpl; [|reflexivity].
  destruct (Qle_bool 0 (x - t)) eqn:E.
  - apply Qle_bool_iff in E. exists x. repeat split; try assumption. lra.
  - exists x. split; [reflexivity|]. split; [reflexivity|].
    intros H. apply Qle_bool_iff in H. congruence.
Qed.

(** * Deleting twice *)

Lemma filter_filter {A} (f : A -> bool) l : filter f (filter f l) = filter f l.
Proof.
  induction l as [|x l IH]; simpl; [reflexivity|].
  destruct (f x) eqn:E; simpl; [rewrite E; now f_equal|assumption].
Qed.

(** X7.  Deleting the same id a second time deletes nothing: the count is 0
    and the database stays as the first delete left it. *)
Theorem delete_expense_twice (db : Db) (expense_id : Z) (db1 : Db) (n : Z) :
  delete_expense db expense_id = Ok (db1, n) ->
  delete_expense db1 expense_id = Ok (db1, 0).
Proof.
  unfold delete_expense. destruct (fits_int64 expense_id); [|discriminate].
  unfold delete_from_expenses. intros [= <- _]. simpl.
  rewrite filter_filter. do 2 f_equal. lia.
Qed.

Lemma delete_expense_twice_witness :
  delete_expense db_december 2 = Ok (fst (delete_from_expenses db_december 2), 1) /\
  delete_expense (fst (delete_from_expenses db_december 2)) 2
  = Ok (fst (delete_from_expenses db_december 2), 0).
Proof.
  assert (H : delete_expense db_december 2
              = Ok (fst (delete_from_expenses db_december 2), 1)) by reflexivity.
  split; [exact H|]. exact (delete_expense_twice db_december 2 _ _ H).
Defined.

(** * Totals after an insert and after a delete *)

(** X4.  An expense entered under a calendar date written [YYYY-MM-DD]
    is counted in the month its date begins with and in no other: the
    total of that month is then taken over the rows it was taken over
    before, followed by the new one, and the total of every other month
    is taken over the same rows as before. *)
Theorem add_expense_counted_in_its_month (w : World) (db : Db)
    (date_input category_input : string) (a : Q) (note_input : string)
    (db' : Db) :
  is_iso_date (Py.strip date_input) ->
  add_expense w db date_input category_input a note_input = Ok db' ->
  exists r,
    expenses db' = (expenses db ++ [r])%list /\
    date r = Py.strip date_input /\ amount r = a /\
    forall e now month_key,
      let before := filter (in_month e now month_key) (expenses db) in
      let after := filter (in_month e now month_key) (expenses db') in
      (substring 0 7 (Py.strip date_input) = month_key ->
       after = (before ++ [r])%list /\
       select_sum_amount e now db' month_key
       = sql_sum (map amount before ++ [a])) /\
      (substring 0 7 (Py.strip date_input) <> month_key ->
       after = before /\
       sum_expenses_for_month e now db' month_key
       = sum_expenses_for_month e now db month_key).
Proof.
  intros Hiso Hadd.
  destruct (add_expense_ok _ _ _ _ _ _ _ Hadd) as [rowid [E _]].
  assert (N : String.eqb (Py.strip date_input) "" = false).
  { apply String.eqb_neq. intros Z. rewrite Z in Hiso.
    apply iso_date_length in Hiso. discriminate Hiso. }
  rewrite N in E.
  eexists. split; [exact E|]. split; [reflexivity|]. split; [reflexivity|].
  intros e now month_key. cbv zeta.
  unfold sum_expenses_for_month, select_sum_amount.
  rewrite E, filter_app. cbn [filter].
  rewrite in_month_iso by exact Hiso. unfold date_prefix. cbn [date].
  split; intros K.
  - apply String.eqb_eq in K. rewrite K.
    split; [reflexivity|]. now rewrite map_app.
  - apply String.eqb_neq in K. rewrite K, app_nil_r. split; reflexivity.
Qed.

Lemma add_expense_counted_in_its_month_witness :
  is_iso_date (Py.strip " 2025-12-05 ") /\
  exists db',
    add_expense (a_world Sqlite.current_engine) db_december " 2025-12-05 " "Food" 30 ""
    = Ok db' /\
    map id (filter (in_month Sqlite.current_engine noon_2025_12_05 "2025-12")
                   (expenses db'))
    = [1; 2; 4; 5] /\
    sum_expenses_for_month Sqlite.current_engine noon_2025_12_05 db' "2025-11"
    = sum_expenses_for_month Sqlite.current_engine noon_2025_12_05 db_december "2025-11".
Proof.
  assert (H : is_iso_date (Py.strip " 2025-12-05 ")).
  { exists 2025, 12, 5. repeat split; try lia; vm_compute; congruence. }
  split; [exact H|]. eexists. split; [reflexivity|].
  destruct (add_expense_counted_in_its_month (a_world Sqlite.current_engine)
              db_december " 2025-12-05 " "Food" 30 "" _ H eq_refl)
    as [r [_ [_ [_ S]]]].
  split; [reflexivity|].
  exact (proj2 (proj2 (S Sqlite.current_engine noon_2025_12_05 "2025-11")
                      ltac:(discriminate))).
Defined.

Lemma today_is_iso w :
  calendar_clock w ->
  is_iso_date (Py.strftime_Ymd (local_now w)) /\
  substring 0 7 (Py.strftime_Ymd (local_now w)) = get_current_month_key w.
Proof.
  intros [Hy [Hm Hd]]. unfold get_current_month_key.
  set (n := local_now w) in *.
  assert (E : Py.strftime_Ymd n = iso_date (Py.year n) (Py.month n) (Py.day n)).
  { unfold Py.strftime_Ymd, Py.strftime_Ym, Py.fmt_year, iso_date.
    destruct (Z.ltb_spec (Py.year n) 10); [lia|].
    destruct (Z.ltb_spec (Py.year n) 100); [lia|].
    destruct (Z.ltb_spec (Py.year n) 1000); [lia|].
    unfold Sqlite.fmt04d.
    destruct (Z.ltb_spec (Py.year n) 0); [lia|]. reflexivity. }
  split.
  - rewrite E. exists (Py.year n), (Py.month n), (Py.day n).
    split; [lia|]. auto.
  - rewrite E, CalendarFacts.iso_date_chars by lia.
    unfold Py.strftime_Ym, Py.fmt_year.
    destruct (Z.ltb_spec (Py.year n) 10); [lia|].
    destruct (Z.ltb_spec (Py.year n) 100); [lia|].
    destruct (Z.ltb_spec (Py.year n) 1000); [lia|].
    unfold Sqlite.fmt04d, Sqlite.fmt02d.
    destruct (Z.ltb_spec (Py.year n) 0); [lia|]. reflexivity.
Qed.

(** X5.  While the local clock shows a date of the years 1000 to 9999, an
    expense entered with an empty date is dated today and is counted in
    the month the summary reports: the total is then taken over the rows
    it was taken over before, followed by the new one. *)
Theorem add_expense_today (w : World) (db : Db)
    (date_input category_input : string) (a : Q) (note_input : string)
    (db' : Db) :
  calendar_clock w ->
  Py.strip date_input = "" ->
  add_expense w db date_input category_input a note_input = Ok db' ->
  exists r,
    expenses db' = (expenses db ++ [r])%list /\
    date r = Py.strftime_Ymd (local_now w) /\ amount r = a /\
    forall e now,
      let month_key := get_current_month_key w in
      in_month e now month_key r = true /\
      filter (in_month e now month_key) (expenses db')
      = (filter (in_month e now month_key) (expenses db) ++ [r])%list /\
      select_sum_amount e now db' month_key
      = sql_sum (map amount (filter (in_month e now month_key) (expenses db))
                 ++ [a]).
Proof.
  intros Hc Hs Hadd.
  destruct (add_expense_ok _ _ _ _ _ _ _ Hadd) as [rowid [E _]].
  rewrite Hs in E. simpl in E.
  destruct (today_is_iso w Hc) as [Hiso Hkey].
  eexists. split; [exact E|]. split; [reflexivity|]. split; [reflexivity|].
  intros e now. cbv zeta.
  assert (Hm : in_month e now (get_current_month_key w)
                 (mkExpense rowid (Py.strftime_Ymd (local_now w))
                    (Py.strip category_input) a (Some (Py.strip note_input)))
               = true).
  { rewrite in_month_iso by exact Hiso.
    unfold date_prefix. cbn [date]. rewrite Hkey. apply String.eqb_refl. }
  split; [exact Hm|].
  unfold select_sum_amount. rewrite E, filter_app. cbn [filter]. rewrite Hm.
  split; [reflexivity|]. now rewrite map_app.
Qed.

Lemma add_expense_today_witness :
  calendar_clock (a_world Sqlite.legacy_engine) /\
  exists db',
    add_expense (a_world Sqlite.legacy_engine) db_december "  " "Food" 30 "" = Ok db' /\
    map date (expenses db')
    = ["2025-12-05"; "2025-12-09"; "2025-11-30"; "2025-12-31"; "2025-12-05"] /\
    select_sum_amount Sqlite.legacy_engine noon_2025_12_05 db' "2025-12"
    = sql_sum ([100; 50; 200]%Q ++ [30%Q])%list.
Proof.
  assert (H : calendar_clock (a_world Sqlite.legacy_engine)).
  { unfold calendar_clock. simpl. repeat split; try lia; vm_compute; congruence. }
  split; [exact H|]. eexists. split; [reflexivity|]. split; [reflexivity|].
  destruct (add_expense_today (a_world Sqlite.legacy_engine) db_december
              "  " "Food" 30 "" _ H eq_refl eq_refl) as [r [_ [_ [_ S]]]].
  exact (proj2 (proj2 (S Sqlite.legacy_engine noon_2025_12_05))).
Defined.

Lemma filter_filter_keep {A} (f g : A -> bool) l :
  (forall x, In x l -> g x = false -> f x = false) ->
  filter f (filter g l) = filter f l.
Proof.
  induction l as [|a l IH]; simpl; intros H; [reflexivity|].
  destruct (g a) eqn:G; simpl.
  - rewrite IH; [reflexivity|]. intros x I. apply H. now right.
  - rewrite (H a (or_introl eq_refl) G). apply IH. intros x I. apply H. now right.
Qed.

Lemma same_id_same_row l r x :
  NoDup (map id l) -> In r l -> In x l -> id x = id r -> x = r.
Proof.
  induction l as [|a l IH]; simpl; intros Hu Hr Hx E; [destruct Hr|].
  inversion Hu as [|? ? Ha Hu']; subst.
  destruct Hr as [Hr|Hr], Hx as [Hx|Hx]; subst.
  - reflexivity.
  - exfalso. apply Ha. rewrite <- E. now apply in_map.
  - exfalso. apply Ha. rewrite E. now apply in_map.
  - now apply IH.
Qed.

(** A filter that the deleted row did not pass keeps what it kept. *)
Lemma filter_without (f : Expense -> bool) l r :
  NoDup (map id l) -> In r l -> f r = false ->
  filter f (filter (fun x => negb (id x =? id r)) l) = filter f l.
Proof.
  intros Hu Hi Hf. apply filter_filter_keep. intros x Hx G.
  apply negb_false_iff, Z.eqb_eq in G.
  now rewrite (same_id_same_row l r x Hu Hi Hx G).
Qed.

(** X6.  Deleting an expense takes exactly that row out of the rows the
    total of its month is taken over, and leaves the total of every month
    that did not count it as it was. *)
Theorem delete_expense_and_totals (db : Db) (r : Expense) (db' : Db) (n : Z) :
  unique_ids db ->
  In r (expenses db) ->
  delete_expense db (id r) = Ok (db', n) ->
  forall e now month_key,
    let before := filter (in_month e now month_key) (expenses db) in
    let after := filter (in_month e now month_key) (expenses db') in
    (in_month e now month_key r = true ->
     Permutation before (r :: after) /\ ~ In r after) /\
    (in_month e now month_key r = false ->
     after = before /\
     sum_expenses_for_month e now db' month_key
     = sum_expenses_for_month e now db month_key).
Proof.
  intros Hu Hi Hd e now month_key. cbv zeta.
  unfold delete_expense in Hd. destruct (fits_int64 (id r)); [|discriminate].
  unfold delete_from_expenses in Hd. injection Hd as <- _. cbn [expenses].
  split; intros Hm.
  - destruct (filter_one_out (expenses db) r Hu Hi) as [P _].
    apply (filter_perm (in_month e now month_key)) in P.
    simpl in P. rewrite Hm in P. split; [exact P|].
    intros I. apply filter_In in I. destruct I as [I _].
    apply filter_In in I. destruct I as [_ I].
    rewrite Z.eqb_refl in I. discriminate I.
  - pose proof (filter_without _ _ r Hu Hi Hm) as F.
    split; [exact F|].
    unfold sum_expenses_for_month, select_sum_amount. cbn [expenses].
    now rewrite F.
Qed.

Lemma delete_expense_and_totals_witness :
  unique_ids db_december /\
  exists db',
    delete_expense db_december 2 = Ok (db', 1) /\
    sum_expenses_for_month Sqlite.current_engine noon_2025_12_05 db' "2025-11"
    = sum_expenses_for_month Sqlite.current_engine noon_2025_12_05 db_december "2025-11".
Proof.
  assert (Hu : unique_ids db_december).
  { unfold unique_ids. simpl. repeat constructor; simpl; intuition lia. }
  split; [exact Hu|]. eexists. split; [reflexivity|].
  exact (proj2 (proj2 (delete_expense_and_totals db_december
                         (mkExpense 2 "2025-12-09" "Food" 50 (Some "lunch")) _ 1 Hu
                         ltac:(simpl; tauto) eq_refl
                         Sqlite.current_engine noon_2025_12_05 "2025-11")
                      eq_refl)).
Defined.

(** * The two summaries agree *)

(** X8.  The two summaries are taken over the same expenses, those the
    WHERE clause keeps: the category summary has a row for exactly the
    categories of the expenses the monthly total sums, each row with the
    SUM of the amounts of its category, added in some order; it has no
    row exactly when the WHERE clause keeps no expense, and then the
    monthly total is 0. *)
Theorem summaries_cover_same_expenses (w : World) (db : Db) :
  let rows := view_category_wise_summary w db in
  let total_expense := fst (fst (view_month_summary w db)) in
  let kept :=
    filter (in_month (sqlite w) (utc_now w) (get_current_month_key w))
           (expenses db) in
  (forall c, In c (map fst rows) <-> exists r, In r kept /\ category r = c) /\
  (forall c v, In (c, v) rows ->
     exists l,
       Permutation l (map amount (filter (fun r => String.eqb (category r) c) kept)) /\
       v = sql_sum l) /\
  total_expense = match sql_sum (map amount kept) with
                  | Some t => t
                  | None => 0%Q
                  end /\
  (rows = [] <-> kept = []) /\
  (rows = [] -> total_expense = 0%Q).
Proof.
  cbv zeta. unfold view_category_wise_summary, view_month_summary. cbn [fst].
  set (e := sqlite w). set (now := utc_now w). set (k := get_current_month_key w).
  assert (N : select_category_sums e now db k = []
              <-> filter (in_month e now k) (expenses db) = []).
  { unfold select_category_sums. rewrite group_by_sum_nil.
    destruct (filter (in_month e now k) (expenses db)); simpl; split; congruence. }
  split; [|split; [|split; [|split]]].
  - intros c. destruct (category_summary_where e now db k c) as [_ [Hk _]].
    cbv zeta in Hk. rewrite Hk. split.
    + intros Hne.
      destruct (filter (fun r => String.eqb (category r) c)
                       (filter (in_month e now k) (expenses db)))
        as [|r l] eqn:El; [contradiction|].
      assert (I : In r (r :: l)) by now left.
      rewrite <- El in I. apply filter_In in I. destruct I as [I Hc].
      exists r. split; [exact I|]. now apply String.eqb_eq.
    + intros [r [I Hc]] El.
      assert (I' : In r (filter (fun r => String.eqb (category r) c)
                                (filter (in_month e now k) (expenses db)))).
      { apply filter_In. split; [exact I|]. now apply String.eqb_eq. }
      rewrite El in I'. destruct I'.
  - intros c v I. now apply (category_summary_where e now db k c).
  - reflexivity.
  - exact N.
  - intros H. apply sum_expenses_for_month_none. now apply N.
Qed.

(** * Amounts stay non-negative *)

Lemma total_nonneg l : Forall (fun x => (0 <= x)%Q) l -> (0 <= total l)%Q.
Proof.
  induction 1 as [|x l Hx F IH]; simpl; [apply Qle_refl|]. lra.
Qed.

Lemma nonneg_filter_map (f : Expense -> bool) l :
  Forall (fun r => (0 <= amount r)%Q) l ->
  Forall (fun x => (0 <= x)%Q) (map amount (filter f l)).
Proof.
  induction 1 as [|r l Hr F IH]; simpl; [constructor|].
  destruct (f r); simpl; [constructor|]; assumption.
Qed.

(** X9.  While no stored amount is negative, no monthly total and no
    category total is negative; an expense entered with an amount that is
    not negative, and any delete, keep it so. *)
Theorem amounts_stay_nonneg (db : Db) :
  nonneg_amounts db ->
  (forall e now month_key, (0 <= sum_expenses_for_month e now db month_key)%Q) /\
  (forall e now month_key c s,
     In (c, Some s) (select_category_sums e now db month_key) -> (0 <= s)%Q) /\
  (forall w di ci a ni db',
     (0 <= a)%Q -> add_expense w db di ci a ni = Ok db' -> nonneg_amounts db') /\
  (forall i db' n, delete_expense db i = Ok (db', n) -> nonneg_amounts db').
Proof.
  intros H. split; [|split; [|split]].
  - intros e now k. rewrite sum_expenses_for_month_where.
    apply total_nonneg, nonneg_filter_map, H.
  - intros e now k c s I. unfold select_category_sums in I.
    set (l := filter (in_month e now k) (expenses db)) in *.
    destruct (group_by_sum_spec (map (fun r => (category r, amount r)) l) c)
      as [_ [_ Hs]].
    destruct (Hs _ I) as [s' [[= <-] E]]. rewrite E, category_rows.
    apply total_nonneg, nonneg_filter_map.
    apply Forall_forall. intros r Ir. apply filter_In in Ir. destruct Ir as [Ir _].
    revert r Ir. apply Forall_forall. exact H.
  - intros w di ci a ni db' Ha Hadd.
    destruct (add_expense_ok _ _ _ _ _ _ _ Hadd) as [rowid [E _]].
    unfold nonneg_amounts. rewrite E. apply Forall_app. split; [exact H|].
    constructor; [exact Ha|constructor].
  - intros i db' n Hd. unfold delete_expense in Hd.
    destruct (fits_int64 i); [|discriminate]. injection Hd as <- _.
    unfold nonneg_amounts, delete_from_expenses. simpl.
    unfold nonneg_amounts in H. rewrite Forall_forall in *.
    intros r Ir. apply filter_In in Ir. now apply H.
Qed.

Lemma amounts_stay_nonneg_witness :
  nonneg_amounts db_december /\
  (0 <= sum_expenses_for_month Sqlite.current_engine noon_2025_12_05 db_december
          "2025-12")%Q.
Proof.
  assert (H : nonneg_amounts db_december).
  { unfold nonneg_amounts. simpl. repeat constructor; simpl; unfold Qle; simpl; lia. }
  split; [exact H|].
  exact (proj1 (amounts_stay_nonneg db_december H)
           Sqlite.current_engine noon_2025_12_05 "2025-12").
Defined.

(** * Databases the program can reach *)

Lemma max_rowid_le rows bound : forall first,
  first <= bound -> Forall (fun r => 1 <= id r <= bound) rows ->
  max_rowid first rows <= bound.
Proof.
  induction rows as [|r rows IH]; intros first H1 H2; simpl; [assumption|].
  inversion H2; subst. apply IH; [lia|assumption].
Qed.

Lemma new_rowid_in_range db v :
  ids_in_range db -> new_rowid db = Some v -> 1 <= v <= MAX_ROWID.
Proof.
  intros [Hs Hr] E. destruct (new_rowid_above db v E) as [Hv _].
  split; [lia|]. revert E. unfold new_rowid.
  destruct (expenses db) as [|r rows].
  - destruct (Z.eqb_spec (sqlite_sequence db) MAX_ROWID); [discriminate|].
    destruct (1 <? sqlite_sequence db + 1); intros [= <-]; unfold MAX_ROWID in *; lia.
  - inversion Hr; subst.
    assert (max_rowid (id r) rows <= MAX_ROWID) by (apply max_rowid_le; [lia|assumption]).
    destruct (Z.eqb_spec (max_rowid (id r) rows) MAX_ROWID); [discriminate|].
    destruct (Z.eqb_spec (sqlite_sequence db) MAX_ROWID); [discriminate|].
    destruct (_ <? _); intros [= <-]; lia.
Qed.

Lemma sorted_app_one l v :
  StronglySorted Z.lt l -> Forall (fun x => x < v) l ->
  StronglySorted Z.lt (l ++ [v]).
Proof.
  induction 1 as [|x l Hs IH Hf]; intros F; simpl; [repeat constructor|].
  inversion F; subst. constructor; [now apply IH|].
  apply Forall_app. split; [assumption|]. now repeat constructor.
Qed.

Lemma sorted_filter_ids (f : Expense -> bool) l :
  StronglySorted Z.lt (map id l) -> StronglySorted Z.lt (map id (filter f l)).
Proof.
  induction l as [|r l IH]; simpl; intros H; [constructor|].
  inversion H as [|? ? Hs Hf]; subst. destruct (f r); simpl; [|auto].
  constructor; [auto|]. rewrite Forall_forall in *. intros x Ix.
  apply Hf. now apply filter_ids_incl in Ix.
Qed.

Lemma step_well_formed db o : well_formed db -> well_formed (step db o).
Proof.
  intros [Hu [Hm [Hc [Ha Hr]]]].
  split; [now apply step_unique|]. split; [|split; [now apply step_covers|]].
  - destruct o as [d c a n|i|k a]; simpl.
    + destruct (insert_expense db d c a n) as [[db' rowid]|] eqn:E; [|assumption].
      apply insert_expense_ok in E. now destruct E as [_ ->].
    + unfold delete_expense. now destruct (fits_int64 i).
    + unfold unique_months. simpl. now apply upsert_unique.
  - destruct o as [d c a n|i|k a]; simpl.
    + destruct (insert_expense db d c a n) as [[db' rowid]|] eqn:E; [|now split].
      apply insert_expense_ok in E. destruct E as [E ->].
      pose proof (new_rowid_in_range db rowid Hr E) as Hv.
      destruct (new_rowid_above db rowid E) as [_ F]. destruct Hr as [Hs Hr].
      split; [|split]; simpl.
      * unfold ascending_ids. simpl. rewrite map_app. simpl.
        apply sorted_app_one; [exact Ha|].
        rewrite Forall_forall in *. intros x Ix. apply in_map_iff in Ix.
        destruct Ix as [r [<- Ir]]. now apply F.
      * lia.
      * apply Forall_app. split; [assumption|]. now repeat constructor.
    + unfold delete_expense. destruct (fits_int64 i); simpl; [|now split].
      destruct Hr as [Hs Hr]. split; [|split]; simpl.
      * now apply sorted_filter_ids.
      * assumption.
      * rewrite Forall_forall in *. intros r Ir. apply filter_In in Ir. now apply Hr.
    + now split.
Qed.

Lemma run_well_formed ops : forall db, well_formed db -> well_formed (run db ops).
Proof.
  induction ops as [|o ops IH]; intros db H; simpl; [assumption|].
  apply IH. now apply step_well_formed.
Qed.

(** X13.  Whatever is added, deleted and budgeted, starting from a missing
    file, the database keeps distinct rowids in ascending order, all of them
    positive 64-bit integers no larger than the AUTOINCREMENT counter, and
    one budget row per month; and each identity the listing shows can be
    deleted, with a count of 1. *)
Theorem reachable_well_formed (ops : list op) :
  let db := run (init_db None) ops in
  well_formed db /\
  forall r, In r (view_all_expenses db) ->
    exists db', delete_expense db (id r) = Ok (db', 1) /\
                ~ In (id r) (map id (view_all_expenses db')).
Proof.
  cbv zeta. set (db := run (init_db None) ops).
  assert (W : well_formed db).
  { apply run_well_formed. simpl. unfold well_formed, unique_ids, unique_months,
      sequence_covers, ascending_ids, ids_in_range, MAX_ROWID. simpl.
    repeat split; try constructor; lia. }
  split; [exact W|]. intros r Ir.
  apply (Permutation_in _ (order_by_perm date _)) in Ir.
  destruct W as [Hu [_ [_ [_ [_ Hr]]]]].
  rewrite Forall_forall in Hr. specialize (Hr r Ir).
  unfold delete_expense, fits_int64.
  destruct (Z.leb_spec MIN_ROWID (id r)); [|unfold MIN_ROWID in *; lia].
  destruct (Z.leb_spec (id r) MAX_ROWID); [|lia]. simpl.
  destruct (filter_one_out (expenses db) r Hu Ir) as [_ L].
  eexists. split.
  - unfold delete_from_expenses. do 2 f_equal. rewrite L. lia.
  - simpl. intros I. apply in_map_iff in I. destruct I as [x [E I]].
    apply (Permutation_in _ (order_by_perm date _)) in I. simpl in I.
    apply filter_In in I. destruct I as [_ I]. rewrite E, Z.eqb_refl in I.
    discriminate.
Qed.

(** * The listing is chronological *)

Lemma code_digit_char k : 0 <= k <= 9 -> Sqlite.code (Sqlite.digit_char k) = 48 + k.
Proof.
  intros H.
  assert (C : k = 0 \/ k = 1 \/ k = 2 \/ k = 3 \/ k = 4 \/ k = 5 \/ k = 6 \/
              k = 7 \/ k = 8 \/ k = 9) by lia.
  repeat (destruct C as [C|C]); subst k; reflexivity.
Qed.

Lemma lex_le_digit a b s t :
  0 <= a <= 9 -> 0 <= b <= 9 ->
  lex_le (String (Sqlite.digit_char a) s) (String (Sqlite.digit_char b) t) ->
  a < b \/ (a = b /\ lex_le s t).
Proof.
  intros Ha Hb H. inversion H; subst.
  - left. rewrite !code_digit_char in * by assumption. lia.
  - right. split; [|assumption].
    assert (E : Sqlite.code (Sqlite.digit_char a) = Sqlite.code (Sqlite.digit_char b))
      by congruence.
    rewrite !code_digit_char in E by assumption. lia.
Qed.

Lemma lex_le_same c s t : lex_le (String c s) (String c t) -> lex_le s t.
Proof. intros H. inversion H; subst; [lia|assumption]. Qed.

Lemma iso_date_order y mo d y' mo' d' :
  0 <= y <= 9999 -> 1 <= mo <= 12 -> 1 <= d <= 31 ->
  0 <= y' <= 9999 -> 1 <= mo' <= 12 -> 1 <= d' <= 31 ->
  lex_le (iso_date y mo d) (iso_date y' mo' d') ->
  on_or_before y mo d y' mo' d'.
Proof.
  intros Hy Hm Hd Hy' Hm' Hd' H.
  rewrite !CalendarFacts.iso_date_chars in H by lia.
  assert (D : forall a b s t, 0 <= a <= 9 -> 0 <= b <= 9 ->
            lex_le (String (Sqlite.digit_char a) s) (String (Sqlite.digit_char b) t) ->
            a < b \/ (a = b /\ lex_le s t)) by apply lex_le_digit.
  unfold on_or_before.
  apply D in H; [|div_lia|div_lia]. destruct H as [H|[E1 H]]; [left; div_lia|].
  apply D in H; [|div_lia|div_lia]. destruct H as [H|[E2 H]]; [left; div_lia|].
  apply D in H; [|div_lia|div_lia]. destruct H as [H|[E3 H]]; [left; div_lia|].
  apply D in H; [|div_lia|div_lia]. destruct H as [H|[E4 H]]; [left; div_lia|].
  right. split; [div_lia|]. apply lex_le_same in H.
  apply D in H; [|div_lia|div_lia]. destruct H as [H|[E5 H]]; [left; div_lia|].
  apply D in H; [|div_lia|div_lia]. destruct H as [H|[E6 H]]; [left; div_lia|].
  right. split; [div_lia|]. apply lex_le_same in H.
  apply D in H; [|div_lia|div_lia]. destruct H as [H|[E7 H]]; [div_lia|].
  apply D in H; [|div_lia|div_lia]. destruct H as [H|[E8 H]]; div_lia.
Qed.

Lemma sorted_dates l :
  Forall (fun r => is_iso_date (date r)) l ->
  StronglySorted (key_le date) l ->
  StronglySorted (fun a b => not_after (date a) (date b)) l.
Proof.
  intros F S. induction S as [|r l S IH Hr]; [constructor|].
  inversion F as [|? ? Fr Fl]; subst. constructor; [now apply IH|].
  rewrite Forall_forall in *. intros x Ix.
  specialize (Hr x Ix). specialize (Fl x Ix). unfold key_le in Hr.
  destruct Fr as [y [mo [d [Hy [Hm [Hd Er]]]]]].
  destruct Fl as [y' [mo' [d' [Hy' [Hm' [Hd' Ex]]]]]].
  pose proof (CalendarFacts.days_in_month_le y mo).
  pose proof (CalendarFacts.days_in_month_le y' mo').
  exists y, mo, d, y', mo', d'.
  split; [lia|]. split; [lia|]. split; [assumption|]. split; [assumption|].
  rewrite Er, Ex in Hr. apply iso_date_order; try assumption; lia.
Qed.

(** X10.  When every stored date is a calendar date written [YYYY-MM-DD],
    the listing is chronological: no expense is listed before an expense of
    an earlier day. *)
Theorem view_all_expenses_chronological (db : Db) :
  Forall (fun r => is_iso_date (date r)) (expenses db) ->
  StronglySorted (fun a b => not_after (date a) (date b)) (view_all_expenses db).
Proof.
  intros F. apply sorted_dates.
  - rewrite Forall_forall in *. intros r Ir. apply F.
    now apply (Permutation_in _ (order_by_perm date _)).
  - apply order_by_strongly_sorted.
Qed.

Lemma view_all_expenses_chronological_witness :
  Forall (fun r => is_iso_date (date r)) (expenses db_december) /\
  map date (view_all_expenses db_december)
  = ["2025-11-30"; "2025-12-05"; "2025-12-09"; "2025-12-31"] /\
  StronglySorted (fun a b => not_after (date a) (date b))
                 (view_all_expenses db_december).
Proof.
  split; [exact db_december_iso|]. split; [reflexivity|].
  exact (view_all_expenses_chronological db_december db_december_iso).
Defined.

(** * [input_float] *)

(** X12.  [input_float] never returns a value below zero.  It returns what
    [float] makes of the first line that [float] accepts and that is not
    below zero, after one complaint for each line before it, and it fails
    with the end of the input only when every line is refused. *)
Theorem input_float_first_acceptable (float : string -> option PyFloat)
    (lines : list string) :
  match input_float float lines with
  | Some (value, out, rest) =>
      below_zero value = false /\
      exists skipped line,
        lines = (skipped ++ line :: rest)%list /\
        float line = Some value /\
        Forall2 (refused float) skipped out
  | None =>
      exists out, Forall2 (refused float) lines out
  end.
Proof.
  induction lines as [|line lines IH]; simpl.
  - exists []. constructor.
  - destruct (float line) as [value|] eqn:E.
    + destruct (below_zero value) eqn:B.
      * destruct (input_float float lines) as [[[v out] rest]|].
        -- destruct IH as [Hv [skipped [l [-> [Hl F]]]]].
           split; [exact Hv|]. exists (line :: skipped), l.
           split; [reflexivity|]. split; [exact Hl|]. constructor; [|exact F].
           unfold refused. rewrite E. auto.
        -- destruct IH as [out F]. exists (AmountNegative :: out).
           constructor; [|exact F]. unfold refused. rewrite E. auto.
      * split; [exact B|]. exists [], line. repeat split; [exact E|constructor].
    + destruct (input_float float lines) as [[[v out] rest]|].
      * destruct IH as [Hv [skipped [l [-> [Hl F]]]]].
        split; [exact Hv|]. exists (line :: skipped), l.
        split; [reflexivity|]. split; [exact Hl|]. constructor; [|exact F].
        unfold refused. now rewrite E.
      * destruct IH as [out F]. exists (InvalidInput :: out).
        constructor; [|exact F]. unfold refused. now rewrite E.
Qed.

(** * [strip] *)

Lemma append_assoc (a b c : string) : (a ++ b) ++ c = a ++ (b ++ c).
Proof. induction a as [|x a IH]; simpl; [reflexivity|]. now rewrite IH. Qed.

Lemma append_nil (a : string) : a ++ "" = a.
Proof. induction a as [|x a IH]; simpl; [reflexivity|]. now rewrite IH. Qed.

Lemma rev_append_app s : forall acc, Py.rev_append s acc = Py.rev s ++ acc.
Proof.
  unfold Py.rev. induction s as [|a s IH]; intros acc; simpl; [reflexivity|].
  rewrite IH, (IH (String a "")), append_assoc. reflexivity.
Qed.

Lemma rev_app p q : Py.rev (p ++ q) = Py.rev q ++ Py.rev p.
Proof.
  induction p as [|a p IH]; simpl.
  - now rewrite append_nil.
  - unfold Py.rev at 1 3. simpl. rewrite !rev_append_app, IH, append_assoc.
    reflexivity.
Qed.

Lemma rev_rev s : Py.rev (Py.rev s) = s.
Proof.
  induction s as [|a s IH]; [reflexivity|].
  unfold Py.rev at 2. simpl. rewrite rev_append_app, rev_app, IH. reflexivity.
Qed.

Lemma strip_front_keeps b s : leading_space b s = false -> Py.strip_front b s = s.
Proof.
  destruct s as [|a [|b0 [|c s3]]]; simpl; try reflexivity.
  - rewrite orb_false_r. now intros ->.
  - rewrite orb_false_r. intros H. apply orb_false_elim in H. destruct H as [-> H].
    now rewrite H.
  - intros H. apply orb_false_elim in H. destruct H as [-> H].
    apply orb_false_elim in H. destruct H as [H1 H2]. now rewrite H1, H2.
Qed.

Lemma strip_front_spec b (n : nat) : forall s,
  (String.length s <= n)%nat ->
  leading_space b (Py.strip_front b s) = false /\
  exists p, s = p ++ Py.strip_front b s.
Proof.
  induction n as [|n IH]; intros s Hn.
  - destruct s; [|simpl in Hn; lia]. split; [reflexivity|]. now exists "".
  - destruct s as [|a s1]; [split; [reflexivity|now exists ""]|].
    simpl in Hn. cbn [Py.strip_front].
    destruct (Py.space1 a) eqn:E1.
    { destruct (IH s1 ltac:(lia)) as [H [p Hp]]. split; [exact H|].
      exists (String a p). simpl. now rewrite <- Hp. }
    destruct s1 as [|b0 s2].
    { split; [simpl; now rewrite E1|now exists ""]. }
    simpl in Hn.
    destruct (if b then Py.space2 b0 a else Py.space2 a b0) eqn:E2.
    { destruct (IH s2 ltac:(lia)) as [H [p Hp]]. split; [exact H|].
      exists (String a (String b0 p)). simpl. now rewrite <- Hp. }
    destruct s2 as [|c s3].
    { split; [simpl; now rewrite E1, E2|now exists ""]. }
    simpl in Hn.
    destruct (if b then Py.space3 c b0 a else Py.space3 a b0 c) eqn:E3.
    { destruct (IH s3 ltac:(lia)) as [H [p Hp]]. split; [exact H|].
      exists (String a (String b0 (String c p))). simpl. now rewrite <- Hp. }
    split; [simpl; now rewrite E1, E2, E3|now exists ""].
Qed.

Lemma leading_space_prefix b p q :
  leading_space b (p ++ q) = false -> leading_space b p = false.
Proof.
  destruct p as [|a [|b0 [|c p3]]]; simpl; try reflexivity.
  - intros H. apply orb_false_elim in H. destruct H as [-> _]. reflexivity.
  - intros H. apply orb_false_elim in H. destruct H as [-> H]. simpl.
    destruct q as [|c q]; simpl in *;
      [exact H|apply orb_false_elim in H; destruct H as [-> _]; reflexivity].
  - tauto.
Qed.

Lemma strip_trimmed s : trimmed (Py.strip s).
Proof.
  unfold Py.strip.
  destruct (strip_front_spec false _ s (le_n _)) as [Hu _].
  set (u := Py.strip_front false s) in *.
  destruct (strip_front_spec true _ (Py.rev u) (le_n _)) as [Hv [p Hp]].
  set (v := Py.strip_front true (Py.rev u)) in *.
  assert (Hu' : u = Py.rev v ++ Py.rev p).
  { rewrite <- (rev_rev u), Hp. apply rev_app. }
  assert (Ht : leading_space false (Py.rev v) = false).
  { apply (leading_space_prefix false _ (Py.rev p)). now rewrite <- Hu'. }
  unfold trimmed. rewrite rev_rev. split; [exact Ht|]. split; [exact Hv|].
  unfold Py.strip. rewrite (strip_front_keeps false _ Ht), rev_rev.
  now rewrite (strip_front_keeps true _ Hv).
Qed.

(** X11.  What [add_expense] stores has no white space around it: the
    category, the note and a date that was typed neither begin nor end with
    a white-space character, and stripping them again changes nothing.  The
    note is never NULL. *)
Theorem add_expense_stores_trimmed (w : World) (db : Db)
    (date_input category_input : string) (a : Q) (note_input : string)
    (db' : Db) :
  add_expense w db date_input category_input a note_input = Ok db' ->
  exists r,
    expenses db' = (expenses db ++ [r])%list /\
    trimmed (category r) /\
    (exists n, note r = Some n /\ trimmed n) /\
    (Py.strip date_input <> "" -> trimmed (date r)).
Proof.
  intros Hadd. destruct (add_expense_ok _ _ _ _ _ _ _ Hadd) as [rowid [E _]].
  eexists. split; [exact E|]. cbn [category note date].
  split; [apply strip_trimmed|]. split.
  - eexists. split; [reflexivity|apply strip_trimmed].
  - intros N. apply String.eqb_neq in N. rewrite N. apply strip_trimmed.
Qed.

Lemma add_expense_stores_trimmed_witness :
  exists db',
    add_expense (a_world Sqlite.legacy_engine) empty_db " 2025-12-05" "  Food " 150 " lunch "
    = Ok db' /\
    map category (expenses db') = ["Food"] /\
    map note (expenses db') = [Some "lunch"].
Proof.
  eexists. split; [reflexivity|].
  destruct (add_expense_stores_trimmed (a_world Sqlite.legacy_engine) empty_db
              " 2025-12-05" "  Food " 150 " lunch " _ eq_refl) as [r [E _]].
  split; reflexivity.
Defined.

(** * Deleting, again *)

Lemma delete_expense_in_range_witness :
  fits_int64 2 = true /\ unique_ids db_december /\
  exists db',
    delete_expense db_december 2 = Ok (db', 1) /\
    map id (expenses db') = [1; 3; 4].
Proof.
  assert (Hu : unique_ids db_december).
  { unfold unique_ids. simpl. repeat constructor; simpl; intuition lia. }
  split; [reflexivity|]. split; [exact Hu|].
  destruct (delete_expense_in_range db_december 2 eq_refl Hu)
    as [db' [n [E [_ [_ [H1 _]]]]]].
  destruct (H1 (mkExpense 2 "2025-12-09" "Food" 50 (Some "lunch"))
               ltac:(simpl; tauto) eq_refl) as [-> _].
  exists db'. split; [exact E|].
  unfold delete_expense in E. simpl in E. now injection E as <-.
Defined.

Lemma deleted_id_stays_out_witness :
  sequence_covers db_december /\
  In 2 (map id (expenses db_december)) /\
  ~ In 2 (map id (view_all_expenses
                    (run (fst (delete_from_expenses db_december 2))
                         [OpAdd "2025-12-10" "Food" 20 None; OpDelete 2;
                          OpAdd "2025-12-11" "Fees" 5 None]))).
Proof.
  assert (Hc : sequence_covers db_december).
  { unfold sequence_covers. simpl. repeat constructor; simpl; lia. }
  assert (Hi : In 2 (map id (expenses db_december))) by (simpl; tauto).
  split; [exact Hc|]. split; [exact Hi|].
  exact (deleted_id_stays_out db_december 2 _ Hc Hi).
Defined.

(** [input_float] on four lines: text, a negative number, not-a-number and a
    number. *)
Lemma input_float_first_acceptable_witness :
  input_float float_of_example ["abc"; "-3"; "nan"; "12.5"]
  = Some (NaN, [InvalidInput; AmountNegative], ["12.5"]) /\
  below_zero NaN = false.
Proof.
  pose proof (input_float_first_acceptable float_of_example
                ["abc"; "-3"; "nan"; "12.5"]) as H.
  change (input_float float_of_example ["abc"; "-3"; "nan"; "12.5"])
    with (Some (NaN, [InvalidInput; AmountNegative], ["12.5"])) in H.
  split; [reflexivity|]. exact (proj1 H).
Defined.
